(** * Home-improvement scraper: field extractors, normalisation, orchestration
      and aggregation, embedded from the Python sources.

    Conventions of the embedding.
    - A Python [str] is a Rocq [string]; a character is a code point below 256
      (Latin-1), so the multiplication sign of the dimension patterns is the
      single character 215.  The regular-expression engine works on
      [list ascii].
    - A Python [float] is represented by the exact rational it denotes
      (type [Q], kept in lowest terms), or by an infinity or NaN marker;
      rounding to binary64 is not represented.
    - A [dict] with string keys is a [gmap string pyval]. *)

From Stdlib Require Import Ascii String QArith Qreduction.
From stdpp Require Import gmap strings list sorting pretty.

Set Warnings "-register-all".

Local Open Scope string_scope.
Local Open Scope list_scope.

(** ** Python values *)

Inductive pyfloat :=
| FNum (q : Q)
| FInf (negative : bool)
| FNan.

Inductive pyval :=
| VNone
| VBool (b : bool)
| VInt (z : Z)
| VFloat (f : pyfloat)
| VStr (s : string)
| VList (l : list pyval).

Abbreviation record := (gmap string pyval).

(** [x is None]. *)
Definition is_none (v : pyval) : bool :=
  match v with VNone => true | _ => false end.

(** [isinstance(x, str)]. *)
Definition is_str (v : pyval) : bool :=
  match v with VStr _ => true | _ => false end.

Definition float_truthy (f : pyfloat) : bool :=
  match f with
  | FNum q => negb (Qeq_bool q 0)
  | FInf _ | FNan => true
  end.

(** Truth value of an object, as tested by [if x] and [not x]. *)
Definition truthy (v : pyval) : bool :=
  match v with
  | VNone => false
  | VBool b => b
  | VInt z => negb (z =? 0)%Z
  | VFloat f => float_truthy f
  | VStr s => negb (String.eqb s "")
  | VList l => match l with [] => false | _ => true end
  end.

(** ** Characters *)

Module Char.

Definition code (a : ascii) : nat := nat_of_ascii a.

Definition between (lo hi : nat) (a : ascii) : bool :=
  (lo <=? code a)%nat && (code a <=? hi)%nat.

(** [\d] on Latin-1 text: the ten ASCII digits. *)
Definition is_digit (a : ascii) : bool := between 48 57 a.

(** [\s] and [str.isspace] on Latin-1 text: TAB..CR, FS..US, space,
    NEL (133) and the no-break space (160). *)
Definition is_space (a : ascii) : bool :=
  between 9 13 a || between 28 32 a
  || (code a =? 133)%nat || (code a =? 160)%nat.

(** Lower-casing of a Latin-1 character: A-Z and the accented capitals
    192-222 (except the multiplication sign 215) move up by 32. *)
Definition lower (a : ascii) : ascii :=
  if between 65 90 a
     || (between 192 222 a && negb (code a =? 215)%nat)
  then ascii_of_nat (code a + 32)
  else a.

Definition digit_value (a : ascii) : Z := Z.of_nat (code a - 48).

(** The multiplication sign, U+00D7. *)
Definition times : ascii := ascii_of_nat 215.

(** The inch mark, the double quote character. *)
Definition inch : ascii := ascii_of_nat 34.

End Char.

Definition chars (s : string) : list ascii := list_ascii_of_string s.
Definition text (l : list ascii) : string := string_of_list_ascii l.

(** ** A backtracking matcher for the patterns of [helpers.py]

    Every quantifier of the source patterns applies to a single character
    or character class, and no capturing group is itself quantified.  A
    pattern is therefore a sequence of quantified classes, some of them
    inside a numbered capturing group. *)

Module Re.

Inductive cls :=
| Digit                       (* \d *)
| Space                       (* \s *)
| AnyChar                     (* .  (no DOTALL: anything but a newline) *)
| Lit (a : ascii)             (* a literal character *)
| OneOf (l : list ascii).     (* [..] *)

Inductive tok :=
| One (c : cls)               (* c   *)
| Opt (c : cls)               (* c?  *)
| Star (c : cls)              (* c*  *)
| Plus (c : cls).             (* c+  *)

Inductive node :=
| T (t : tok)
| G (g : nat) (ts : list tok).    (* capturing group number g *)

Definition regex := list node.

(** Literal text inside a pattern. *)
Definition lit (s : string) : regex := map (fun a => T (One (Lit a))) (chars s).

(** [ic] is the IGNORECASE flag. *)
Definition cls_match (ic : bool) (c : cls) (a : ascii) : bool :=
  match c with
  | Digit => Char.is_digit a
  | Space => Char.is_space a
  | AnyChar => negb (Char.code a =? 10)%nat
  | Lit b =>
      if ic then bool_decide (Char.lower a = Char.lower b)
      else bool_decide (a = b)
  | OneOf l =>
      if ic then bool_decide (Char.lower a ∈ map Char.lower l)
      else bool_decide (a ∈ l)
  end.

(** The text captured so far by each group. *)
Definition captures := nat -> list ascii.

Definition no_captures : captures := fun _ => [].

Definition push (g : option nat) (w : list ascii) (m : captures) : captures :=
  match g with
  | None => m
  | Some i => fun j => if (j =? i)%nat then m j ++ w else m j
  end.

(** A pattern with each token tagged by the group it lies in. *)
Definition flat (r : regex) : list (option nat * tok) :=
  r ≫= (fun n =>
          match n with
          | T t => [(None, t)]
          | G g ts => map (fun t => (Some g, t)) ts
          end).

Section Matcher.
Variable ic : bool.

Definition single (c : cls) (g : option nat)
    (k : list ascii -> captures -> option captures)
    (s : list ascii) (m : captures) : option captures :=
  match s with
  | a :: s' => if cls_match ic c a then k s' (push g [a] m) else None
  | [] => None
  end.

(** Greedy repetition: take as many characters as possible, give them
    back one at a time while the rest of the pattern fails. *)
Fixpoint many (c : cls) (g : option nat)
    (k : list ascii -> captures -> option captures)
    (s : list ascii) (m : captures) : option captures :=
  match s with
  | a :: s' =>
      if cls_match ic c a then
        match many c g k s' (push g [a] m) with
        | Some r => Some r
        | None => k s m
        end
      else k s m
  | [] => k s m
  end.

Fixpoint run (p : list (option nat * tok))
    (s : list ascii) (m : captures) : option captures :=
  match p with
  | [] => Some m
  | (g, One c) :: p' => single c g (run p') s m
  | (g, Opt c) :: p' =>
      match single c g (run p') s m with
      | Some r => Some r
      | None => run p' s m
      end
  | (g, Star c) :: p' => many c g (run p') s m
  | (g, Plus c) :: p' => single c g (many c g (run p')) s m
  end.

(** [re.search]: the match at the leftmost position that has one. *)
Fixpoint search_chars (p : list (option nat * tok)) (s : list ascii)
    : option captures :=
  match run p s no_captures with
  | Some m => Some m
  | None =>
      match s with
      | [] => None
      | _ :: s' => search_chars p s'
      end
  end.
End Matcher.

(** [re.search(pattern, text, flags)]; the result maps a group number to
    the text it captured. *)
Definition search (ic : bool) (r : regex) (s : string) : option (nat -> string) :=
  match search_chars ic (flat r) (chars s) with
  | Some m => Some (fun g => text (m g))
  | None => None
  end.

End Re.

Import Re.

(** ** The built-in [float()] *)

Module PyFloat.

Fixpoint lstrip (s : list ascii) : list ascii :=
  match s with
  | a :: s' => if Char.is_space a then lstrip s' else s
  | [] => []
  end.

(** [s.strip()]. *)
Definition strip (s : list ascii) : list ascii :=
  rev (lstrip (rev (lstrip s))).

Definition is_underscore (a : ascii) : bool := bool_decide (a = "_"%char).

(** Digit grouping: an underscore is accepted only between two digits.
    [prev] is the previous character ([None] at the start). *)
Fixpoint underscores_ok (prev : option ascii) (s : list ascii) : bool :=
  match s with
  | [] => match prev with Some p => negb (is_underscore p) | None => true end
  | a :: s' =>
      (if is_underscore a
       then match prev with Some p => Char.is_digit p | None => false end
       else match prev with
            | Some p => if is_underscore p then Char.is_digit a else true
            | None => true
            end)
      && underscores_ok (Some a) s'
  end.

Definition sign (s : list ascii) : bool * list ascii :=
  match s with
  | "-"%char :: s' => (true, s')
  | "+"%char :: s' => (false, s')
  | _ => (false, s)
  end.

(** The longest prefix of digits, and what follows it. *)
Fixpoint span_digits (s : list ascii) : list ascii * list ascii :=
  match s with
  | a :: s' =>
      if Char.is_digit a
      then let '(d, r) := span_digits s' in (a :: d, r)
      else ([], s)
  | [] => ([], [])
  end.

Definition digits_value (d : list ascii) : Z :=
  fold_left (fun acc a => (10 * acc + Char.digit_value a)%Z) d 0%Z.

(** [m * 10^e], in lowest terms. *)
Definition scale (m e : Z) : Q :=
  Qred (if (0 <=? e)%Z then inject_Z (m * 10 ^ e)
        else Qmake m (Z.to_pos (10 ^ (- e)))).

(** The exponent part: nothing, or [e], an optional sign and digits. *)
Definition exponent (s : list ascii) : option Z :=
  match s with
  | [] => Some 0%Z
  | a :: s' =>
      if bool_decide (Char.lower a = "e"%char) then
        let '(neg, s'') := sign s' in
        let '(d, r) := span_digits s'' in
        match d, r with
        | _ :: _, [] => Some (if neg then (- digits_value d)%Z else digits_value d)
        | _, _ => None
        end
      else None
  end.

(** An unsigned decimal literal: digits, an optional point with more
    digits (at least one digit overall), an optional exponent. *)
Definition decimal (s : list ascii) : option Q :=
  let '(ip, r1) := span_digits s in
  let '(fp, r2) := match r1 with
                   | "."%char :: r => span_digits r
                   | _ => ([], r1)
                   end in
  match ip ++ fp with
  | [] => None
  | _ :: _ =>
      match exponent r2 with
      | Some e => Some (scale (digits_value (ip ++ fp)) (e - Z.of_nat (length fp)))
      | None => None
      end
  end.

(** [float(s)] for a string [s]; [None] stands for [ValueError]. *)
Definition of_chars (s : list ascii) : option pyfloat :=
  let s1 := strip s in
  if underscores_ok None s1 then
    let '(neg, body) := sign (filter (fun a => a ≠ "_"%char) s1) in
    let word := text (map Char.lower body) in
    if bool_decide (word = "inf" ∨ word = "infinity") then Some (FInf neg)
    else if bool_decide (word = "nan") then Some FNan
    else match decimal body with
         | Some q => Some (FNum (if neg then Qred (- q) else q))
         | None => None
         end
  else None.

Definition of_string (s : string) : option pyfloat := of_chars (chars s).

(** [float(x)]; [None] stands for [ValueError] or [TypeError]. *)
Definition of_val (v : pyval) : option pyfloat :=
  match v with
  | VNone => None
  | VBool b => Some (FNum (if b then 1 else 0))
  | VInt z => Some (FNum (inject_Z z))
  | VFloat f => Some f
  | VStr s => of_string s
  | VList _ => None
  end.

End PyFloat.

(** ** [utils/helpers.py] *)

(** [text.replace(',', '')]. *)
Definition remove_commas (s : string) : string :=
  text (filter (fun a => a ≠ ","%char) (chars s)).

(** The number inside every price pattern: [\d+,?\d*\.?\d+]. *)
Definition price_number : list tok :=
  [Plus Digit; Opt (Lit ","); Star Digit; Opt (Lit "."); Plus Digit].

Definition price_patterns : list regex :=
  [ [T (Opt (Lit "$")); G 1 price_number];
    [G 1 price_number; T (Star Space); T (One (Lit "$"))];
    lit "Price:" ++ [T (Star Space); T (Opt (Lit "$")); G 1 price_number];
    lit "Cost:" ++ [T (Star Space); T (Opt (Lit "$")); G 1 price_number] ].

(** The loop over [price_patterns]: the first pattern that matches and
    whose group converts decides; a [ValueError] moves on to the next. *)
Fixpoint extract_price_loop (patterns : list regex) (stripped : string)
    : option pyfloat :=
  match patterns with
  | [] => None
  | pattern :: rest =>
      match search false pattern stripped with
      | Some m =>
          match PyFloat.of_string (remove_commas (m 1%nat)) with
          | Some f => Some f
          | None => extract_price_loop rest stripped
          end
      | None => extract_price_loop rest stripped
      end
  end.

Definition extract_price (txt : string) : option pyfloat :=
  if String.eqb txt "" then None
  else extract_price_loop price_patterns (remove_commas txt).

(** The number inside every dimension pattern: [\d+\.?\d*]. *)
Definition dim_number : list tok := [Plus Digit; Opt (Lit "."); Star Digit].

Definition x_or_times : cls := OneOf ["x"%char; Char.times].

(** The four dimension patterns, in the order they are tried. *)
Definition dims_plain : regex :=
  [G 1 dim_number; T (Star Space); T (One x_or_times); T (Star Space);
   G 2 dim_number].

Definition dims_labelled : regex :=
  lit "Width:" ++ [T (Star Space); G 1 dim_number; T (Plus AnyChar)]
    ++ lit "Height:" ++ [T (Star Space); G 2 dim_number].

Definition dims_w_h : regex :=
  [G 1 dim_number; T (Star Space); T (One (Lit "W")); T (Star Space);
   T (One x_or_times); T (Star Space); G 2 dim_number; T (Star Space);
   T (One (Lit "H"))].

Definition dims_inch : regex :=
  [G 1 dim_number; T (Opt (Lit Char.inch)); T (Star Space); T (One x_or_times);
   T (Star Space); G 2 dim_number; T (Opt (Lit Char.inch))].

Definition dimension_patterns : list regex :=
  [dims_plain; dims_labelled; dims_w_h; dims_inch].

Definition opt_float (o : option pyfloat) : pyval :=
  match o with Some f => VFloat f | None => VNone end.

(** The loop over [dimension_patterns].  [w] is the width already stored
    in the result: the source assigns the width before it converts the
    height, so a failed height conversion would leave the width in place. *)
Fixpoint extract_dimensions_loop (patterns : list regex) (txt : string)
    (w : option pyfloat) : option pyfloat * option pyfloat :=
  match patterns with
  | [] => (w, None)
  | pattern :: rest =>
      match search true pattern txt with
      | Some m =>
          match PyFloat.of_string (m 1%nat) with
          | Some fw =>
              match PyFloat.of_string (m 2%nat) with
              | Some fh => (Some fw, Some fh)
              | None => extract_dimensions_loop rest txt (Some fw)
              end
          | None => extract_dimensions_loop rest txt w
          end
      | None => extract_dimensions_loop rest txt w
      end
  end.

Definition extract_dimensions (txt : string) : record :=
  let '(w, h) := extract_dimensions_loop dimension_patterns txt None in
  <["width" := opt_float w]> (<["height" := opt_float h]> ∅).

(** [clean_text]: whitespace runs become one space, the ends are trimmed,
    and only word characters, spaces and [-.$()/] are kept. *)
Module Clean.

(** [\w] on Latin-1 text. *)
Definition is_word (a : ascii) : bool :=
  Char.is_digit a || Char.between 65 90 a || Char.between 97 122 a
  || bool_decide (a = "_"%char)
  || bool_decide (Char.code a ∈ [170; 178; 179; 181; 185; 186; 188; 189; 190]%nat)
  || Char.between 192 214 a || Char.between 216 246 a || Char.between 248 255 a.

(** [re.sub(r'\s+', ' ', text)]; [in_run] tells that the previous
    character was whitespace. *)
Fixpoint collapse (in_run : bool) (s : list ascii) : list ascii :=
  match s with
  | [] => []
  | a :: s' =>
      if Char.is_space a
      then if in_run then collapse true s' else " "%char :: collapse true s'
      else a :: collapse false s'
  end.

Definition kept (a : ascii) : bool :=
  is_word a || Char.is_space a
  || bool_decide (a ∈ ["-"; "."; "$"; "("; ")"; "/"]%char).

End Clean.

Definition clean_text (txt : string) : string :=
  if String.eqb txt "" then ""
  else text (List.filter Clean.kept (PyFloat.strip (Clean.collapse false (chars txt)))).

Definition required_fields : list string := ["product_type"; "price"].

(** [field in product and product[field] is not None]. *)
Definition has_field (product : record) (field : string) : bool :=
  match product !! field with
  | Some v => negb (is_none v)
  | None => false
  end.

Definition validate_product_data (product : record) : bool :=
  if forallb (has_field product) required_fields then
    match product !! "price" with
    | Some p =>
        match PyFloat.of_val p with
        | Some _ => true
        | None => false
        end
    | None => false
    end
  else false.

Definition field_mapping : list (string * list string) :=
  [ ("product_type", ["type"; "product_type"; "category"]);
    ("price", ["price"; "cost"; "total_price"; "amount"]);
    ("width", ["width"; "w"; "dimension_width"]);
    ("height", ["height"; "h"; "dimension_height"]);
    ("material", ["material"; "frame_material"; "construction"]);
    ("color", ["color"; "finish"; "paint_color"]);
    ("brand", ["brand"; "manufacturer"; "make"]);
    ("model", ["model"; "model_number"; "part_number"]);
    ("features", ["features"; "options"; "upgrades"]);
    ("delivery_time", ["delivery"; "lead_time"; "shipping_time"]) ].

(** The inner loop of [normalize_product_data]: the value of the first
    alias that is present and not [None]. *)
Fixpoint first_present (product : record) (possible_fields : list string)
    : option pyval :=
  match possible_fields with
  | [] => None
  | field :: rest =>
      if has_field product field then product !! field
      else first_present product rest
  end.

Definition remap (product : record) : record :=
  fold_left
    (fun normalized '(standard_field, possible_fields) =>
       match first_present product possible_fields with
       | Some v => <[standard_field := v]> normalized
       | None => normalized
       end)
    field_mapping ∅.

Definition normalize_product_data (product : record) : record :=
  let normalized := remap product in
  match normalized !! "price" with
  | Some (VStr s) => <["price" := opt_float (extract_price s)]> normalized
  | _ => normalized
  end.

(** ** Faults and effects

    A computation reads and writes a state and either returns a value or
    raises an [Exception]. *)

Inductive exn := Exception (msg : string).

Inductive outcome (A : Type) :=
| Ok (a : A)
| Raise (e : exn).
Arguments Ok {A} a.
Arguments Raise {A} e.

Definition comp (S A : Type) : Type := S -> outcome A * S.

#[global] Instance comp_ret {S} : MRet (comp S) := fun A a s => (Ok a, s).

#[global] Instance comp_bind {S} : MBind (comp S) :=
  fun A B k c s =>
    match c s with
    | (Ok a, s') => k a s'
    | (Raise e, s') => (Raise e, s')
    end.

(** [try: c  except Exception as e: h e]. *)
Definition try_except {S A} (c : comp S A) (h : exn -> comp S A) : comp S A :=
  fun s =>
    match c s with
    | (Ok a, s') => (Ok a, s')
    | (Raise e, s') => h e s'
    end.

(** Reading a component of the state. *)
Definition get {S A} (f : S -> A) : comp S A := fun s => (Ok (f s), s).

(** A step that cannot raise. *)
Definition total {S A} (f : S -> A * S) : comp S A :=
  fun s => let '(a, s') := f s in (Ok a, s').

(** What a run leaves in the journal: the start of an attempt (the
    "Scraping product" log line), the jittered pauses and the waits of the
    retry decorator (milliseconds).  Other log lines are not recorded. *)
Inductive event :=
| Attempt (config : record)
| RandomDelay (min_seconds max_seconds : Q)
| RetryWait (ms : nat).

(** ** [scrapers/base_scraper.py] *)

Section BaseScraper.
Context {browser : Type}.

(** The operations a concrete supplier provides, and the operation of
    the browser manager that the base class calls for screenshots.  Each
    acts on the browser session only. *)
Record strategy := {
  supplier_name : string;
  setup : comp browser unit;
  cleanup : browser -> browser;
  login : comp browser bool;
  get_product_configurations : list record;
  configure_product : record -> comp browser bool;
  extract_product_data : comp browser (option record);
  take_screenshot : string -> comp browser unit;
}.

Record scraper := {
  session : browser;
  scraped_data : list record;
  failed_items : list record;
  delay_between_requests : Q;
  journal : list event;
}.

Definition with_session (b : browser) (s : scraper) : scraper :=
  {| session := b; scraped_data := scraped_data s;
     failed_items := failed_items s;
     delay_between_requests := delay_between_requests s;
     journal := journal s |}.

(** A browser operation run by the scraper. *)
Definition on_session {A} (f : comp browser A) : comp scraper A :=
  fun s => let '(r, b) := f (session s) in (r, with_session b s).

Definition note (e : event) : comp scraper unit :=
  fun s =>
    (Ok tt, {| session := session s; scraped_data := scraped_data s;
               failed_items := failed_items s;
               delay_between_requests := delay_between_requests s;
               journal := journal s ++ [e] |}).

Definition random_delay (min_seconds max_seconds : Q) : comp scraper unit :=
  note (RandomDelay min_seconds max_seconds).

(** The loop of the [retrying] decorator with [stop_max_attempt_number]
    and [wait_fixed]: a call that raised is repeated after the wait while
    attempts remain; the last exception is raised again. *)
Fixpoint retry_loop {A} (remaining : nat) (wait_ms : nat)
    (f : comp scraper A) : comp scraper A :=
  fun s =>
    match f s with
    | (Ok a, s') => (Ok a, s')
    | (Raise e, s') =>
        match remaining with
        | O => (Raise e, s')
        | S n => (note (RetryWait wait_ms);; retry_loop n wait_ms f) s'
        end
    end.

Definition retry_on_failure {A} (max_attempts delay_seconds : nat)
    (f : comp scraper A) : comp scraper A :=
  retry_loop (max_attempts - 1) (delay_seconds * 1000) f.

Variable sup : strategy.

(** [product_data.update(config)]. *)
Definition update (product_data config : record) : record :=
  config ∪ product_data.

(** Truth value of a dict: it is not empty. *)
Definition dict_truthy (r : record) : bool := negb (bool_decide (r = ∅)).

(** The single-item pipeline, the part inside [try]. *)
Definition pipeline (config : record) : comp scraper (option record) :=
  note (Attempt config);;
  configured ← on_session (configure_product sup config);
  if negb configured then mret None
  else
    d ← get delay_between_requests;
    random_delay d (d + 1);;
    product_data ← on_session (extract_product_data sup);
    match product_data with
    | None => mret None
    | Some product_data =>
        if negb (dict_truthy product_data) then mret None
        else
          let product_data := update product_data config in
          let product_data :=
            <["supplier" := VStr (supplier_name sup)]> product_data in
          let normalized_data := normalize_product_data product_data in
          if validate_product_data normalized_data
          then mret (Some normalized_data)
          else mret None
    end.

Definition error_screenshot_name (failed : list record) : string :=
  "error_" +:+ supplier_name sup +:+ "_" +:+ pretty (length failed) +:+ ".png".

(** The body of [scrape_single_product], before decoration. *)
Definition scrape_single_product_body (config : record)
    : comp scraper (option record) :=
  try_except (pipeline config)
    (fun _ =>
       failed ← get failed_items;
       on_session (take_screenshot sup (error_screenshot_name failed));;
       mret None).

(** [@retry_on_failure(max_attempts=3)], with the default five seconds. *)
Definition scrape_single_product (config : record)
    : comp scraper (option record) :=
  retry_on_failure 3 5 (scrape_single_product_body config).

Definition append_scraped (r : record) : comp scraper unit :=
  fun s =>
    (Ok tt, {| session := session s; scraped_data := scraped_data s ++ [r];
               failed_items := failed_items s;
               delay_between_requests := delay_between_requests s;
               journal := journal s |}).

Definition append_failed (config : record) : comp scraper unit :=
  fun s =>
    (Ok tt, {| session := session s; scraped_data := scraped_data s;
               failed_items := failed_items s ++ [config];
               delay_between_requests := delay_between_requests s;
               journal := journal s |}).

(** The [for] loop of [scrape_all_products]. *)
Fixpoint scrape_loop (configurations : list record) : comp scraper unit :=
  match configurations with
  | [] => mret tt
  | config :: rest =>
      product_data ← scrape_single_product config;
      match product_data with
      | Some r => if dict_truthy r then append_scraped r
                  else append_failed config
      | None => append_failed config
      end;;
      d ← get delay_between_requests;
      random_delay d (d + 2);;
      scrape_loop rest
  end.

(** The [try] block; [Some l] is the early [return l]. *)
Definition scrape_all_try : comp scraper (option (list record)) :=
  on_session (setup sup);;
  logged_in ← on_session (login sup);
  if negb logged_in then mret (Some [])
  else scrape_loop (get_product_configurations sup);; mret None.

(** [finally: self.cleanup()] runs however the rest ended. *)
Definition finally {A} (c : comp scraper A) : comp scraper A :=
  fun s =>
    let '(r, s') := c s in
    (r, with_session (cleanup sup (session s')) s').

Definition scrape_all_products : comp scraper (list record) :=
  early ← finally
            (try_except scrape_all_try
               (fun _ =>
                  on_session
                    (take_screenshot sup
                       ("fatal_error_" +:+ supplier_name sup +:+ ".png"));;
                  mret None));
  match early with
  | Some l => mret l
  | None => get scraped_data
  end.

End BaseScraper.

Arguments strategy : clear implicits.
Arguments scraper : clear implicits.

(** ** The supplier strategies: [extract_product_data]

    The browser manager is an interface: [get_element_text] swallows every
    fault itself; [wait_for_element] only swallows the timeout, so it, the
    [text] of an element and [find_elements] may raise. *)

Inductive By := ID | NAME | XPATH | CLASS_NAME | CSS_SELECTOR | LINK_TEXT.

Definition locator : Type := By * string.

(** The page regions each supplier reads ([product_selectors]). *)
Module Supplier1.
Definition price_display : locator := (CLASS_NAME, "price-display").
Definition product_details : locator := (CLASS_NAME, "product-details").
Definition specifications : locator := (CLASS_NAME, "specifications").
End Supplier1.

Module Supplier2.
Definition price_container : locator := (CLASS_NAME, "quote-price").
Definition product_summary : locator := (CLASS_NAME, "product-summary").
Definition feature_list : locator := (CLASS_NAME, "feature-list").
Definition lead_time : locator :=
  (XPATH, "//*[contains(text(), 'Lead Time') or contains(text(), 'Delivery')]").
End Supplier2.

Module Supplier3.
Definition total_price : locator := (CSS_SELECTOR, ".total-price .amount").
Definition price_breakdown : locator := (CSS_SELECTOR, ".price-breakdown").
Definition product_specs : locator := (CSS_SELECTOR, ".product-specifications").
Definition warranty_info : locator := (CSS_SELECTOR, ".warranty-details").
Definition installation : locator :=
  (XPATH, "//*[contains(text(), 'Installation') or contains(text(), 'Labor')]").
End Supplier3.

Section Suppliers.
Context {browser element : Type}.

Record driver := {
  get_element_text : locator -> browser -> option string * browser;
  wait_for_element : locator -> option nat -> comp browser (option element);
  element_text : element -> comp browser string;
  find_elements : locator -> comp browser (list element);
}.

Variable drv : driver.

(** Truth value of an [Optional[str]]. *)
Definition text_truthy (o : option string) : bool :=
  match o with
  | Some s => negb (String.eqb s "")
  | None => false
  end.

(** [not product_data.get('price')]. *)
Definition no_price (product_data : record) : bool :=
  match product_data !! "price" with
  | Some v => negb (truthy v)
  | None => true
  end.

(** [if t: product_data[key] = clean_text(t)], with the dimensions of the
    same text merged in when [dims] is set. *)
Definition store_text (key : string) (dims : bool) (t : option string)
    (product_data : record) : record :=
  match t with
  | Some s =>
      if String.eqb s "" then product_data
      else
        let product_data := <[key := VStr (clean_text s)]> product_data in
        if dims then update product_data (extract_dimensions s)
        else product_data
  | None => product_data
  end.

Definition finish (product_data : record) : comp browser (option record) :=
  if no_price product_data then mret None else mret (Some product_data).

(** Whatever is raised inside becomes [None]. *)
Definition guarded (c : comp browser (option record))
    : browser -> option record * browser :=
  fun b =>
    match c b with
    | (Ok r, b') => (r, b')
    | (Raise _, b') => (None, b')
    end.

Definition supplier1_extract_product_data : browser -> option record * browser :=
  guarded (
    let product_data : record := ∅ in
    price_text ← total (get_element_text drv Supplier1.price_display);
    let product_data :=
      if text_truthy price_text
      then <["price" := opt_float (extract_price (default "" price_text))]> product_data
      else product_data in
    details_text ← total (get_element_text drv Supplier1.product_details);
    let product_data := store_text "details" true details_text product_data in
    specs_text ← total (get_element_text drv Supplier1.specifications);
    let product_data := store_text "specifications" false specs_text product_data in
    finish product_data).

(** [if elements: product_data[key] = elements[0].text]. *)
Definition store_first_text (key : string) (elements : list element)
    (product_data : record) : comp browser record :=
  match elements with
  | e :: _ => t ← element_text drv e; mret (<[key := VStr t]> product_data)
  | [] => mret product_data
  end.

(** [if element: product_data['price'] = extract_price(element.text)]. *)
Definition store_price (price_element : option element)
    (product_data : record) : comp browser record :=
  match price_element with
  | Some e =>
      price_text ← element_text drv e;
      mret (<["price" := opt_float (extract_price price_text)]> product_data)
  | None => mret product_data
  end.

Definition supplier2_extract_product_data : browser -> option record * browser :=
  guarded (
    let product_data : record := ∅ in
    price_element ← wait_for_element drv Supplier2.price_container (Some 10%nat);
    product_data ← store_price price_element product_data;
    summary_text ← total (get_element_text drv Supplier2.product_summary);
    let product_data := store_text "summary" true summary_text product_data in
    features_text ← total (get_element_text drv Supplier2.feature_list);
    let product_data := store_text "features" false features_text product_data in
    lead_time_element ← find_elements drv Supplier2.lead_time;
    product_data ← store_first_text "delivery_info" lead_time_element product_data;
    finish product_data).

(** [s.split('\n')[0]] when [s] has a newline, else nothing. *)
Fixpoint first_line (s : list ascii) : option (list ascii) :=
  match s with
  | [] => None
  | a :: s' =>
      if (Char.code a =? 10)%nat then Some []
      else match first_line s' with
           | Some l => Some (a :: l)
           | None => None
           end
  end.

Definition float_option_truthy (o : option pyfloat) : bool :=
  match o with Some f => float_truthy f | None => false end.

Definition store_breakdown (breakdown_element : option element)
    (product_data : record) : comp browser record :=
  match breakdown_element with
  | Some e =>
      breakdown_text ← element_text drv e;
      let product_data :=
        <["price_breakdown" := VStr (clean_text breakdown_text)]> product_data in
      let base_price :=
        match first_line (chars breakdown_text) with
        | Some l => extract_price (text l)
        | None => None
        end in
      mret (if float_option_truthy base_price
            then <["base_price" := opt_float base_price]> product_data
            else product_data)
  | None => mret product_data
  end.

Definition supplier3_extract_product_data : browser -> option record * browser :=
  guarded (
    let product_data : record := ∅ in
    total_price_element ← wait_for_element drv Supplier3.total_price (Some 10%nat);
    product_data ← store_price total_price_element product_data;
    breakdown_element ← wait_for_element drv Supplier3.price_breakdown None;
    product_data ← store_breakdown breakdown_element product_data;
    specs_text ← total (get_element_text drv Supplier3.product_specs);
    let product_data := store_text "specifications" true specs_text product_data in
    warranty_text ← total (get_element_text drv Supplier3.warranty_info);
    let product_data := store_text "warranty" false warranty_text product_data in
    installation_elements ← find_elements drv Supplier3.installation;
    product_data ← store_first_text "installation_info" installation_elements product_data;
    finish product_data).

End Suppliers.

Arguments driver : clear implicits.

(** ** [utils/data_handler.py]

    [combine_datasets] writes into the dict objects it is given, so records
    live in a store of objects and a dataset is a list of references. *)

Abbreviation ref := nat (only parsing).

Record store := {
  objects : gmap ref record;
  clock : nat;                 (* how often the time was read so far *)
}.

Section DataHandler.
(** [now n] is what the [n]-th reading of [datetime.now().isoformat()]
    returns. *)
Variable now : nat -> string.

(** [f"Supplier_{i+1}"]. *)
Definition fallback_name (i : nat) : string := "Supplier_" +:+ pretty (i + 1)%nat.

(** [supplier_names[i] if i < len(supplier_names) else f"Supplier_{i+1}"]. *)
Definition name_for (supplier_names : list string) (i : nat) : string :=
  match supplier_names !! i with
  | Some n => n
  | None => fallback_name i
  end.

(** The two item assignments on one record object. *)
Definition stamp (supplier_name : string) (item : ref) (st : store) : store :=
  {| objects :=
       alter (fun r => <["scraped_at" := VStr (now (clock st))]>
                         (<["supplier" := VStr supplier_name]> r))
             item (objects st);
     clock := S (clock st) |}.

(** The inner loop: stamp every item and append its reference. *)
Fixpoint combine_dataset (supplier_name : string) (dataset : list ref)
    (combined_data : list ref) (st : store) : list ref * store :=
  match dataset with
  | [] => (combined_data, st)
  | item :: rest =>
      combine_dataset supplier_name rest (combined_data ++ [item])
        (stamp supplier_name item st)
  end.

(** The outer loop; [i] is the index [enumerate] gives to the dataset. *)
Fixpoint combine_from (i : nat) (datasets : list (list ref))
    (supplier_names : list string) (combined_data : list ref) (st : store)
    : list ref * store :=
  match datasets with
  | [] => (combined_data, st)
  | dataset :: rest =>
      let '(combined_data, st) :=
        combine_dataset (name_for supplier_names i) dataset combined_data st in
      combine_from (S i) rest supplier_names combined_data st
  end.

Definition combine_datasets (datasets : list (list ref))
    (supplier_names : list string) (st : store) : list ref * store :=
  combine_from 0 datasets supplier_names [] st.

End DataHandler.

(** *** [create_summary_report]

    Of the report, the record count and the price analysis are embedded.  A
    price cell counts when it is a number; a missing key, [None] or NaN is
    a missing cell, which the column statistics skip; any other cell puts
    the input outside the fragment embedded here ([None]). *)

Inductive cell := Number (q : Q) | Missing.

Definition price_cell (r : record) : option cell :=
  match r !! "price" with
  | None | Some VNone | Some (VFloat FNan) => Some Missing
  | Some (VInt z) => Some (Number (inject_Z z))
  | Some (VFloat (FNum q)) => Some (Number q)
  | Some _ => None
  end.

Definition present (c : cell) : option Q :=
  match c with Number q => Some q | Missing => None end.

Definition Qmin' (a b : Q) : Q := if Qle_bool a b then a else b.
Definition Qmax' (a b : Q) : Q := if Qle_bool a b then b else a.

Fixpoint insert_sorted (x : Q) (l : list Q) : list Q :=
  match l with
  | [] => [x]
  | y :: l' => if Qle_bool x y then x :: l else y :: insert_sorted x l'
  end.

Definition sort_prices (l : list Q) : list Q := foldr insert_sorted [] l.

(** Column statistics over the cells that are present; NaN when none is. *)
Definition column_min (l : list Q) : pyfloat :=
  match l with
  | [] => FNan
  | x :: l' => FNum (fold_left Qmin' l' x)
  end.

Definition column_max (l : list Q) : pyfloat :=
  match l with
  | [] => FNan
  | x :: l' => FNum (fold_left Qmax' l' x)
  end.

Definition column_mean (l : list Q) : pyfloat :=
  match l with
  | [] => FNan
  | _ :: _ => FNum (Qred (fold_left Qplus l 0 / inject_Z (Z.of_nat (length l)))%Q)
  end.

(** The middle value of the sorted column, or the mean of the two middle
    values when their number is even. *)
Definition column_median (l : list Q) : pyfloat :=
  let sorted := sort_prices l in
  let n := length sorted in
  if (n =? 0)%nat then FNan
  else if Nat.odd n then FNum (nth (n / 2) sorted 0%Q)
  else FNum (Qred ((nth (n / 2 - 1) sorted 0 + nth (n / 2) sorted 0) / 2)%Q).

Record price_analysis := {
  min_price : pyfloat;
  max_price : pyfloat;
  avg_price : pyfloat;
  median_price : pyfloat;
}.

Record summary := {
  total_products : nat;
  price_stats : option price_analysis;     (* the ['price_analysis'] entry *)
}.

(** ['price' in df.columns]: some record has the key. *)
Definition has_price_column (data : list record) : bool :=
  existsb (fun r => bool_decide (is_Some (r !! "price"))) data.

Definition create_summary_report (data : list record) : option summary :=
  if has_price_column data then
    match mapM price_cell data with
    | Some cells =>
        let prices := omap present cells in
        Some {| total_products := length data;
                price_stats :=
                  Some {| min_price := column_min prices;
                          max_price := column_max prices;
                          avg_price := column_mean prices;
                          median_price := column_median prices |} |}
    | None => None
    end
  else Some {| total_products := length data; price_stats := None |}.

(** * Properties *)

(** ** Validation *)

(** A required field is missing when the key is absent or holds [None]
    (the two cases the source reports as "missing required field"). *)
Definition missing (product : record) (field : string) : Prop :=
  product !! field = None ∨ product !! field = Some VNone.

(** [float(v)] succeeds. *)
Definition coercible (v : pyval) : Prop := is_Some (PyFloat.of_val v).


Lemma has_field_false product field :
  has_field product field = false ↔ missing product field.
Proof.
  unfold has_field, missing.
  destruct (product !! field) as [v|]; simpl; [|by split; auto].
  destruct v; simpl;
    (split; [intros ?; try done; auto | intros [?|?]; congruence]).
Qed.

Lemma has_field_true product field :
  has_field product field = true ↔
  ∃ v, product !! field = Some v ∧ v ≠ VNone.
Proof.
  unfold has_field.
  destruct (product !! field) as [v|]; simpl.
  - destruct v; simpl; split; eauto; try done;
      intros (? & ? & ?); congruence.
  - split; [done|]. intros (? & ? & _). done.
Qed.

Lemma validate_true product :
  validate_product_data product = true ↔
  (∃ t, product !! "product_type" = Some t ∧ t ≠ VNone)
  ∧ (∃ p, product !! "price" = Some p ∧ p ≠ VNone ∧ coercible p).
Proof.
  unfold validate_product_data, required_fields, coercible. simpl.
  rewrite andb_true_r.
  destruct (has_field product "product_type") eqn:Ht; simpl.
  - apply has_field_true in Ht.
    destruct (has_field product "price") eqn:Hp.
    + apply has_field_true in Hp as (p & Hp & Hn). rewrite Hp.
      destruct (PyFloat.of_val p) eqn:Hf.
      * split; [intros _|done]. split; [done|].
        exists p. by rewrite Hf.
      * split; [done|]. intros (_ & p' & Hp' & _ & Hs).
        simplify_eq. rewrite Hf in Hs. by destruct Hs.
    + split; [done|]. intros (_ & p & Hp' & Hn & _).
      assert (has_field product "price" = true) as Hc
        by (apply has_field_true; eauto).
      congruence.
  - split; [done|]. intros ((t & Ht' & Hn) & _).
    assert (has_field product "product_type" = true) as Hc
      by (apply has_field_true; eauto).
    congruence.
Qed.

Definition invalid_price_example : record :=
  <["product_type" := VStr "windows"]> (<["price" := VStr "not-a-number"]> ∅).


(** ** Normalisation *)

Definition canonical_fields : list string :=
  ["product_type"; "price"; "width"; "height"; "material"; "color"; "brand";
   "model"; "features"; "delivery_time"; "supplier"].

Definition is_number (v : pyval) : Prop :=
  match v with
  | VInt _ | VFloat _ => True
  | _ => False
  end.

(** An already-canonical record: its keys are exactly the canonical
    fields, no value is [None], and the price is a number. *)
Record canonical (r : record) : Prop := {
  canonical_keys : dom r = list_to_set canonical_fields;
  canonical_values : map_Forall (fun _ v => is_none v = false) r;
  canonical_price : ∃ p, r !! "price" = Some p ∧ is_number p;
}.

(** The aliases under which [field_mapping] looks for a standard field. *)
Definition aliases_of (k : string) : option (list string) :=
  (list_to_map field_mapping : gmap string (list string)) !! k.

Definition all_aliases : list string := mjoin (field_mapping.*2).

Section Remap.
Variable r : record.

Definition remap_step (normalized : record) (entry : string * list string) : record :=
  match first_present r entry.2 with
  | Some v => <[entry.1 := v]> normalized
  | None => normalized
  end.

Lemma remap_fold : remap r = fold_left remap_step field_mapping ∅.
Proof.
  unfold remap. f_equal.
Qed.

Lemma fold_remap_lookup (fm : list (string * list string)) (acc : record) k :
  NoDup (fm.*1) →
  fold_left remap_step fm acc !! k =
    match (list_to_map fm : gmap string (list string)) !! k with
    | Some al =>
        match first_present r al with
        | Some v => Some v
        | None => acc !! k
        end
    | None => acc !! k
    end.
Proof.
  revert acc. induction fm as [|[f al] fm IH]; intros acc Hnd; [done|].
  rewrite fmap_cons in Hnd. apply NoDup_cons in Hnd as [Hf Hnd].
  cbn [fold_left]. rewrite IH by done.
  change (list_to_map ((f, al) :: fm) : gmap string (list string))
    with (<[f := al]> (list_to_map fm : gmap string (list string))).
  unfold remap_step. cbn [fst snd] in *.
  destruct (decide (f = k)) as [->|Hne].
  - rewrite lookup_insert_eq.
    rewrite (not_elem_of_list_to_map_1 _ k) by done.
    destruct (first_present r al); [by rewrite lookup_insert_eq|done].
  - rewrite lookup_insert_ne by done.
    destruct (first_present r al); [|done].
    by rewrite lookup_insert_ne.
Qed.

Lemma remap_lookup k :
  remap r !! k =
    match aliases_of k with
    | Some al => first_present r al
    | None => None
    end.
Proof.
  rewrite remap_fold, fold_remap_lookup.
  - unfold aliases_of. destruct (_ !! k); [|done].
    by destruct (first_present r _).
  - apply (bool_decide_unpack (NoDup (field_mapping.*1))). by vm_compute.
Qed.
End Remap.

Lemma first_present_ext r1 r2 al :
  (∀ a, a ∈ al → r1 !! a = r2 !! a) → first_present r1 al = first_present r2 al.
Proof.
  induction al as [|a al IH]; intros H; [done|]. simpl.
  unfold has_field. rewrite (H a) by left.
  rewrite IH; [done|]. intros b Hb. apply H. by right.
Qed.

Lemma aliases_of_all k al a : aliases_of k = Some al → a ∈ al → a ∈ all_aliases.
Proof.
  intros Hk Ha. unfold aliases_of in Hk. apply elem_of_list_to_map_2 in Hk.
  unfold all_aliases. apply list_elem_of_join. exists al. split; [done|].
  apply list_elem_of_fmap. by exists (k, al).
Qed.

(** The pass only looks at the alias keys. *)
Lemma remap_ext r1 r2 :
  (∀ a, a ∈ all_aliases → r1 !! a = r2 !! a) → remap r1 = remap r2.
Proof.
  intros H. apply map_eq. intros k. rewrite !remap_lookup.
  destruct (aliases_of k) as [al|] eqn:E; [|done].
  apply first_present_ext. intros a Ha. apply H. by eapply aliases_of_all.
Qed.

Lemma canonical_absent r k :
  canonical r → k ∉ canonical_fields → r !! k = None.
Proof.
  intros Hc Hk. apply not_elem_of_dom. rewrite (canonical_keys r Hc).
  by rewrite elem_of_list_to_set.
Qed.

Lemma canonical_present r k :
  canonical r → k ∈ canonical_fields →
  ∃ v, r !! k = Some v ∧ has_field r k = true.
Proof.
  intros Hc Hk.
  apply (elem_of_list_to_set (C := gset string)) in Hk.
  rewrite <- (canonical_keys r Hc) in Hk. apply elem_of_dom in Hk as [v Hv].
  exists v. split; [done|]. unfold has_field. rewrite Hv.
  by rewrite (canonical_values r Hc k v Hv).
Qed.

(** [al] reaches the canonical key [k] after aliases that are not
    canonical keys. *)
Fixpoint own_first (al : list string) (k : string) : bool :=
  match al with
  | [] => false
  | a :: rest =>
      if bool_decide (a = k) then true
      else bool_decide (a ∉ canonical_fields) && own_first rest k
  end.

Lemma first_present_own r al k :
  canonical r → k ∈ canonical_fields → own_first al k = true →
  first_present r al = r !! k.
Proof.
  intros Hc Hk. induction al as [|a al IH]; [done|]. simpl.
  case_bool_decide as Ha.
  - subst a. intros _.
    destruct (canonical_present r k Hc Hk) as (v & Hv & Hf). by rewrite Hf.
  - intros [Hn Ho]%andb_true_iff. apply bool_decide_eq_true in Hn.
    unfold has_field. rewrite (canonical_absent r a Hc Hn). by apply IH.
Qed.

(** A key that a second pass looks at is either a canonical key mapped
    from itself, or neither a canonical key nor a standard field. *)
Definition stable_alias (a : string) : bool :=
  match aliases_of a with
  | Some al => bool_decide (a ∈ canonical_fields) && own_first al a
  | None => bool_decide (a ∉ canonical_fields)
  end.

Lemma all_aliases_stable : forallb stable_alias all_aliases = true.
Proof. by vm_compute. Qed.

Lemma remap_canonical_alias r a :
  canonical r → a ∈ all_aliases → remap r !! a = r !! a.
Proof.
  intros Hc Ha.
  pose proof all_aliases_stable as Hs.
  rewrite forallb_forall in Hs. specialize (Hs a).
  rewrite <- list_elem_of_In in Hs. specialize (Hs Ha).
  unfold stable_alias in Hs. rewrite remap_lookup.
  destruct (aliases_of a) as [al|].
  - apply andb_true_iff in Hs as [Hk Ho]. apply bool_decide_eq_true in Hk.
    by apply first_present_own.
  - apply bool_decide_eq_true in Hs. symmetry. by apply canonical_absent.
Qed.

Lemma remap_price r p :
  canonical r → r !! "price" = Some p → remap r !! "price" = Some p.
Proof.
  intros Hc Hp. rewrite remap_canonical_alias; [done|done|].
  apply (bool_decide_unpack ("price" ∈ all_aliases)). by vm_compute.
Qed.

Lemma normalize_number r p :
  remap r !! "price" = Some p → is_number p →
  normalize_product_data r = remap r.
Proof.
  intros Hp Hn. unfold normalize_product_data. rewrite Hp. by destruct p.
Qed.

(** C2.  On an already-canonical record, normalising twice gives the same
    mapping as normalising once. *)
Theorem normalize_product_data_idempotent r :
  canonical r →
  normalize_product_data (normalize_product_data r) = normalize_product_data r.
Proof.
  intros Hc.
  destruct (canonical_price r Hc) as (p & Hp & Hnum).
  pose proof (remap_price r p Hc Hp) as Hrp.
  rewrite (normalize_number r p Hrp Hnum).
  assert (remap (remap r) = remap r) as Hrr.
  { apply remap_ext. intros a Ha. by apply remap_canonical_alias. }
  rewrite (normalize_number (remap r) p); [done| |done].
  by rewrite Hrr.
Qed.

Definition canonical_example : record :=
  list_to_map
    [("product_type", VStr "windows"); ("price", VFloat (FNum (19999 # 100)));
     ("width", VInt 30); ("height", VInt 40); ("material", VStr "vinyl");
     ("color", VStr "white"); ("brand", VStr "Acme"); ("model", VStr "W-1");
     ("features", VList [VStr "low-e-glass"]); ("delivery_time", VStr "2 weeks");
     ("supplier", VStr "Supplier_1")].

Lemma normalize_product_data_idempotent_witness :
  canonical canonical_example
  ∧ normalize_product_data (normalize_product_data canonical_example)
    = normalize_product_data canonical_example.
Proof.
  assert (canonical canonical_example) as Hc.
  { split.
    - apply (bool_decide_unpack
               (dom canonical_example = list_to_set canonical_fields)).
      vm_compute. reflexivity.
    - apply (bool_decide_unpack
               (map_Forall (fun _ v => is_none v = false) canonical_example)).
      vm_compute. reflexivity.
    - eexists. split; [vm_compute; reflexivity|exact I]. }
  split; [exact Hc|].
  exact (normalize_product_data_idempotent canonical_example Hc).
Defined.

(** The pass itself is not the identity on such a record: the two
    canonical fields without an alias of their own name are dropped. *)
Example normalize_drops_unaliased_fields :
  normalize_product_data canonical_example !! "supplier" = None
  ∧ normalize_product_data canonical_example !! "delivery_time" = None.
Proof. split; vm_compute; reflexivity. Qed.

(** ** A price of zero *)

Section ZeroPrice.
Context {browser element : Type}.
Variable drv : driver browser element.

(** The price entry holds a value that [not] rejects. *)
Definition falsy_price (product_data : record) : Prop :=
  ∃ v, product_data !! "price" = Some v ∧ truthy v = false.

Lemma falsy_price_no_price product_data :
  falsy_price product_data → no_price product_data = true.
Proof. intros (v & Hv & Ht). unfold no_price. by rewrite Hv, Ht. Qed.

Lemma falsy_price_insert key v product_data :
  key ≠ "price" → falsy_price product_data →
  falsy_price (<[key := v]> product_data).
Proof.
  intros Hk (p & Hp & Ht). exists p. split; [|done].
  by rewrite lookup_insert_ne.
Qed.

Lemma falsy_price_dimensions s product_data :
  falsy_price product_data →
  falsy_price (update product_data (extract_dimensions s)).
Proof.
  intros (p & Hp & Ht). exists p. split; [|done].
  unfold update, extract_dimensions.
  destruct (extract_dimensions_loop _ _ _) as [w h].
  rewrite lookup_union_r; [done|].
  rewrite lookup_insert_ne by done. by rewrite lookup_insert_ne.
Qed.

Lemma falsy_price_store_text key dims t product_data :
  key ≠ "price" → falsy_price product_data →
  falsy_price (store_text key dims t product_data).
Proof.
  intros Hk Hp. unfold store_text.
  destruct t as [s|]; [|done].
  destruct (String.eqb s ""); [done|].
  destruct dims.
  - by apply falsy_price_dimensions, falsy_price_insert.
  - by apply falsy_price_insert.
Qed.

Lemma falsy_price_store_first key es product_data b :
  key ≠ "price" → falsy_price product_data →
  match store_first_text drv key es product_data b with
  | (Ok pd, _) => falsy_price pd
  | (Raise _, _) => True
  end.
Proof.
  intros Hk Hp. unfold store_first_text.
  destruct es as [|e es]; [done|].
  unfold mbind, comp_bind, mret, comp_ret.
  destruct (element_text drv e b) as [[t|x] b']; [|done].
  by apply falsy_price_insert.
Qed.

Lemma falsy_price_store_breakdown e product_data b :
  falsy_price product_data →
  match store_breakdown drv e product_data b with
  | (Ok pd, _) => falsy_price pd
  | (Raise _, _) => True
  end.
Proof.
  intros Hp. unfold store_breakdown.
  destruct e as [e|]; [|done].
  unfold mbind, comp_bind, mret, comp_ret.
  destruct (element_text drv e b) as [[t|x] b']; [|done].
  destruct (float_option_truthy _).
  - by apply falsy_price_insert, falsy_price_insert.
  - by apply falsy_price_insert.
Qed.

Lemma finish_falsy product_data (b : browser) :
  falsy_price product_data → finish product_data b = (Ok None, b).
Proof.
  intros Hp. unfold finish. by rewrite (falsy_price_no_price _ Hp).
Qed.

Lemma zero_price_falsy t :
  extract_price t = Some (FNum 0) →
  falsy_price (<["price" := opt_float (extract_price t)]> ∅).
Proof.
  intros ->. eexists. split; [apply lookup_insert_eq|done].
Qed.

Lemma supplier1_zero_price b t b1 :
  get_element_text drv Supplier1.price_display b = (Some t, b1) →
  extract_price t = Some (FNum 0) →
  (supplier1_extract_product_data drv b).1 = None.
Proof.
  intros Hread Hzero.
  assert (t ≠ "") as Hne by (intros ->; done).
  unfold supplier1_extract_product_data, guarded.
  unfold mbind, comp_bind, total. rewrite Hread. simpl.
  apply String.eqb_neq in Hne. rewrite Hne. simpl.
  destruct (get_element_text drv Supplier1.product_details b1) as [d b2].
  destruct (get_element_text drv Supplier1.specifications b2) as [sp b3].
  rewrite finish_falsy; [done|].
  apply falsy_price_store_text; [done|].
  apply falsy_price_store_text; [done|].
  by apply zero_price_falsy.
Qed.

Lemma store_price_zero e t b b1 :
  element_text drv e b = (Ok t, b1) →
  extract_price t = Some (FNum 0) →
  ∃ pd, store_price drv (Some e) ∅ b = (Ok pd, b1) ∧ falsy_price pd.
Proof.
  intros Ht Hz. unfold store_price, mbind, comp_bind, mret, comp_ret.
  rewrite Ht. eexists. split; [done|]. by apply zero_price_falsy.
Qed.

Lemma supplier2_zero_price b e b1 t b2 :
  wait_for_element drv Supplier2.price_container (Some 10%nat) b = (Ok (Some e), b1) →
  element_text drv e b1 = (Ok t, b2) →
  extract_price t = Some (FNum 0) →
  (supplier2_extract_product_data drv b).1 = None.
Proof.
  intros Hwait Htext Hzero.
  destruct (store_price_zero e t b1 b2 Htext Hzero) as (pd & Hsp & Hpd).
  unfold supplier2_extract_product_data, guarded.
  unfold mbind at 1 2, comp_bind at 1 2. rewrite Hwait, Hsp.
  unfold mbind at 1 2, comp_bind at 1 2, total.
  destruct (get_element_text drv Supplier2.product_summary b2) as [d b3].
  destruct (get_element_text drv Supplier2.feature_list b3) as [f b4].
  unfold mbind at 1, comp_bind at 1.
  destruct (find_elements drv Supplier2.lead_time b4) as [[es|x] b5]; [|done].
  unfold mbind at 1, comp_bind at 1.
  match goal with
  | |- context [store_first_text drv ?k ?es ?p ?b] =>
      pose proof (falsy_price_store_first k es p b) as Hs;
      destruct (store_first_text drv k es p b) as [[pd'|x] b6]; [|done]
  end.
  rewrite finish_falsy; [done|]. apply Hs; [done|].
  apply falsy_price_store_text; [done|].
  by apply falsy_price_store_text.
Qed.

Lemma supplier3_zero_price b e b1 t b2 :
  wait_for_element drv Supplier3.total_price (Some 10%nat) b = (Ok (Some e), b1) →
  element_text drv e b1 = (Ok t, b2) →
  extract_price t = Some (FNum 0) →
  (supplier3_extract_product_data drv b).1 = None.
Proof.
  intros Hwait Htext Hzero.
  destruct (store_price_zero e t b1 b2 Htext Hzero) as (pd & Hsp & Hpd).
  unfold supplier3_extract_product_data, guarded.
  unfold mbind at 1 2, comp_bind at 1 2. rewrite Hwait, Hsp.
  unfold mbind at 1, comp_bind at 1.
  destruct (wait_for_element drv Supplier3.price_breakdown None b2)
    as [[be|x] b3]; [|done].
  unfold mbind at 1, comp_bind at 1.
  pose proof (falsy_price_store_breakdown be pd b3 Hpd) as Hb.
  destruct (store_breakdown drv be pd b3) as [[pd1|x] b4]; [|done].
  unfold mbind at 1 2, comp_bind at 1 2, total.
  destruct (get_element_text drv Supplier3.product_specs b4) as [d b5].
  destruct (get_element_text drv Supplier3.warranty_info b5) as [f b6].
  unfold mbind at 1, comp_bind at 1.
  destruct (find_elements drv Supplier3.installation b6) as [[es|x] b7]; [|done].
  unfold mbind at 1, comp_bind at 1.
  match goal with
  | |- context [store_first_text drv ?k ?es ?p ?b] =>
      pose proof (falsy_price_store_first k es p b) as Hs;
      destruct (store_first_text drv k es p b) as [[pd'|x] b8]; [|done]
  end.
  rewrite finish_falsy; [done|]. apply Hs; [done|].
  apply falsy_price_store_text; [done|].
  by apply falsy_price_store_text.
Qed.

End ZeroPrice.

(** C9.  When the price region reads a text that parses to 0.0, as "$0.00"
    does, [extract_product_data] of each of the three suppliers returns
    [None]: the parsed price is stored, and the final test [not
    product_data.get('price')] rejects it like an absent one. *)
Theorem zero_price_extraction_fails {browser element : Type}
    (drv : driver browser element) :
  extract_price "$0.00" = Some (FNum 0)
  ∧ (∀ b t b1,
       get_element_text drv Supplier1.price_display b = (Some t, b1) →
       extract_price t = Some (FNum 0) →
       (supplier1_extract_product_data drv b).1 = None)
  ∧ (∀ b e b1 t b2,
       wait_for_element drv Supplier2.price_container (Some 10%nat) b
         = (Ok (Some e), b1) →
       element_text drv e b1 = (Ok t, b2) →
       extract_price t = Some (FNum 0) →
       (supplier2_extract_product_data drv b).1 = None)
  ∧ (∀ b e b1 t b2,
       wait_for_element drv Supplier3.total_price (Some 10%nat) b
         = (Ok (Some e), b1) →
       element_text drv e b1 = (Ok t, b2) →
       extract_price t = Some (FNum 0) →
       (supplier3_extract_product_data drv b).1 = None).
Proof.
  split; [by vm_compute|].
  split; [apply supplier1_zero_price|].
  split; [apply supplier2_zero_price|apply supplier3_zero_price].
Qed.

(** A page on which every region reads "$0.00". *)
Definition free_page : driver unit unit :=
  {| get_element_text := fun _ b => (Some "$0.00", b);
     wait_for_element := fun _ _ b => (Ok (Some tt), b);
     element_text := fun _ b => (Ok "$0.00", b);
     find_elements := fun _ b => (Ok [], b) |}.

Lemma zero_price_extraction_fails_witness :
  (supplier1_extract_product_data free_page tt).1 = None
  ∧ (supplier2_extract_product_data free_page tt).1 = None
  ∧ (supplier3_extract_product_data free_page tt).1 = None.
Proof.
  destruct (zero_price_extraction_fails free_page) as (Hz & H1 & H2 & H3).
  split; [|split].
  - apply (H1 tt "$0.00" tt); [reflexivity|exact Hz].
  - apply (H2 tt tt tt "$0.00" tt); [reflexivity|reflexivity|exact Hz].
  - apply (H3 tt tt tt "$0.00" tt); [reflexivity|reflexivity|exact Hz].
Defined.

(** ** The orchestrator *)

(** The two hard gates: a [product_type] that is not [None] and a price
    that is not [None] and that [float()] accepts. *)
Definition valid_record (r : record) : Prop :=
  (∃ t, r !! "product_type" = Some t ∧ t ≠ VNone)
  ∧ (∃ p, r !! "price" = Some p ∧ p ≠ VNone ∧ coercible p).

Section Orchestrator.
Context {browser : Type}.
Variable sup : strategy browser.

(** [appends c Q]: running [c] only ever adds valid records at the end of
    the success list, and a returned value satisfies [Q]. *)
Definition appends {A} (c : comp (scraper browser) A) (Q : A → Prop) : Prop :=
  ∀ s, ∃ new,
    scraped_data (c s).2 = scraped_data s ++ new
    ∧ Forall valid_record new
    ∧ match (c s).1 with Ok a => Q a | Raise _ => True end.

Lemma appends_ret {A} (a : A) (Q : A → Prop) : Q a → appends (mret a) Q.
Proof. intros Ha s. exists []. simpl. by rewrite app_nil_r. Qed.

Lemma appends_bind {A B} (c : comp (scraper browser) A)
    (k : A → comp (scraper browser) B) (P : A → Prop) (Q : B → Prop) :
  appends c P → (∀ a, P a → appends (k a) Q) → appends (c ≫= k) Q.
Proof.
  intros Hc Hk s. destruct (Hc s) as (n1 & E1 & F1 & R1).
  unfold mbind, comp_bind.
  destruct (c s) as [[a|e] s1]; simpl in *.
  - destruct (Hk a R1 s1) as (n2 & E2 & F2 & R2).
    exists (n1 ++ n2). rewrite E2, E1, app_assoc.
    split; [done|]. split; [by apply Forall_app|done].
  - by exists n1.
Qed.

Lemma appends_weaken {A} (c : comp (scraper browser) A) (P Q : A → Prop) :
  appends c P → (∀ a, P a → Q a) → appends c Q.
Proof.
  intros Hc HPQ s. destruct (Hc s) as (n & E & F & R).
  exists n. split; [done|]. split; [done|].
  destruct (c s).1; auto.
Qed.

Lemma appends_on_session {A} (f : comp browser A) :
  appends (on_session f) (fun _ => True).
Proof.
  intros s. exists []. unfold on_session.
  destruct (f (session s)) as [r b]. simpl.
  rewrite app_nil_r. by destruct r.
Qed.

Lemma appends_note e : appends (note e) (fun _ => True).
Proof. intros s. exists []. simpl. by rewrite app_nil_r. Qed.

Lemma appends_get {A} (f : scraper browser → A) : appends (get f) (fun _ => True).
Proof. intros s. exists []. simpl. by rewrite app_nil_r. Qed.

Lemma appends_try_except {A} (c : comp (scraper browser) A) h (Q : A → Prop) :
  appends c Q → (∀ e, appends (h e) Q) → appends (try_except c h) Q.
Proof.
  intros Hc Hh s. destruct (Hc s) as (n1 & E1 & F1 & R1).
  unfold try_except.
  destruct (c s) as [[a|e] s1]; simpl in *.
  - by exists n1.
  - destruct (Hh e s1) as (n2 & E2 & F2 & R2).
    exists (n1 ++ n2). rewrite E2, E1, app_assoc.
    split; [done|]. split; [by apply Forall_app|done].
Qed.

Lemma appends_retry_loop {A} n w (f : comp (scraper browser) A) (Q : A → Prop) :
  appends f Q → appends (retry_loop n w f) Q.
Proof.
  intros Hf. induction n as [|n IH]; intros s.
  - destruct (Hf s) as (n1 & E1 & F1 & R1). simpl.
    destruct (f s) as [[a|e] s1]; simpl in *; by exists n1.
  - destruct (Hf s) as (n1 & E1 & F1 & R1). simpl.
    destruct (f s) as [[a|e] s1]; simpl in *; [by exists n1|].
    pose proof (appends_bind _ (fun _ => retry_loop n w f) _ Q
                  (appends_note (RetryWait w)) (fun _ _ => IH) s1)
      as (n2 & E2 & F2 & R2).
    exists (n1 ++ n2). rewrite E2, E1, app_assoc.
    split; [done|]. split; [by apply Forall_app|done].
Qed.

Lemma appends_finally {A} (c : comp (scraper browser) A) (Q : A → Prop) :
  appends c Q → appends (finally sup c) Q.
Proof.
  intros Hc s. destruct (Hc s) as (n1 & E1 & F1 & R1).
  exists n1. unfold finally. by destruct (c s) as [r s1].
Qed.

Lemma appends_append_scraped r :
  valid_record r → appends (append_scraped r) (fun _ => True).
Proof.
  intros Hr s. exists [r]. simpl. split; [done|]. split; [|done].
  by apply Forall_singleton.
Qed.

Lemma appends_append_failed config :
  appends (append_failed config) (fun _ => True).
Proof. intros s. exists []. simpl. by rewrite app_nil_r. Qed.

Definition valid_result (o : option record) : Prop :=
  ∀ r, o = Some r → valid_record r.

Lemma appends_pipeline config : appends (pipeline sup config) valid_result.
Proof.
  unfold pipeline.
  eapply appends_bind; [apply appends_note|]. intros _ _.
  eapply appends_bind; [apply appends_on_session|]. intros configured _.
  destruct configured; simpl; [|by apply appends_ret].
  eapply appends_bind; [apply appends_get|]. intros d _.
  eapply appends_bind; [apply appends_note|]. intros _ _.
  eapply appends_bind; [apply appends_on_session|]. intros [pd|] _;
    [|by apply appends_ret].
  destruct (dict_truthy pd); simpl; [|by apply appends_ret].
  match goal with
  | |- context [validate_product_data ?n] =>
      destruct (validate_product_data n) eqn:Hv
  end; [|by apply appends_ret].
  apply appends_ret. intros r [= <-]. by apply validate_true.
Qed.

Lemma appends_scrape_single_product config :
  appends (scrape_single_product sup config) valid_result.
Proof.
  apply appends_retry_loop, appends_try_except; [apply appends_pipeline|].
  intros e.
  eapply appends_bind; [apply appends_get|]. intros failed _.
  eapply appends_bind; [apply appends_on_session|]. intros _ _.
  by apply appends_ret.
Qed.

Lemma appends_scrape_loop configurations :
  appends (scrape_loop sup configurations) (fun _ => True).
Proof.
  induction configurations as [|config rest IH]; [by apply appends_ret|].
  simpl.
  eapply appends_bind; [apply appends_scrape_single_product|].
  intros product_data Hvalid.
  eapply appends_bind.
  { instantiate (1 := fun _ => True).
    destruct product_data as [r|]; [|apply appends_append_failed].
    destruct (dict_truthy r); [|apply appends_append_failed].
    apply appends_append_scraped. by apply Hvalid. }
  intros _ _.
  eapply appends_bind; [apply appends_get|]. intros d _.
  eapply appends_bind; [apply appends_note|]. intros _ _.
  apply IH.
Qed.

Definition early_empty (early : option (list record)) : Prop :=
  ∀ l, early = Some l → l = [].

Lemma appends_scrape_all_try : appends (scrape_all_try sup) early_empty.
Proof.
  unfold scrape_all_try.
  eapply appends_bind; [apply appends_on_session|]. intros _ _.
  eapply appends_bind; [apply appends_on_session|]. intros logged_in _.
  destruct logged_in; simpl.
  - eapply appends_bind; [apply appends_scrape_loop|]. intros _ _.
    by apply appends_ret.
  - apply appends_ret. by intros l [= <-].
Qed.

End Orchestrator.

(** C3.  Whatever the supplier strategy does, the run only adds records
    that pass the two gates to the success list; started with an empty
    success list, every record of the returned list has a [product_type]
    that is not [None] and a price that is not [None] and converts to a
    number. *)
Theorem scrape_all_products_only_valid {browser : Type}
    (sup : strategy browser) (s : scraper browser) :
  (∃ new, scraped_data (scrape_all_products sup s).2 = scraped_data s ++ new
          ∧ Forall valid_record new)
  ∧ (scraped_data s = [] →
     ∀ l, (scrape_all_products sup s).1 = Ok l → Forall valid_record l).
Proof.
  unfold scrape_all_products.
  match goal with
  | |- context [mbind ?k (finally sup ?c)] =>
      assert (appends (finally sup c) early_empty) as Hf
  end.
  { apply appends_finally, appends_try_except; [apply appends_scrape_all_try|].
    intros e.
    eapply appends_bind; [apply appends_on_session|]. intros _ _.
    apply appends_ret. by intros l [=]. }
  destruct (Hf s) as (new & E & F & R).
  unfold mbind at 1 3, comp_bind at 1 3.
  match goal with
  | |- context [finally sup ?c s] => destruct (finally sup c s) as [[early|e] s1]
  end; simpl in *.
  - destruct early as [l|]; simpl.
    + split; [by exists new|]. intros _ l' [= <-]. by rewrite (R l eq_refl).
    + split; [by exists new|]. intros Hs l' [= <-]. by rewrite E, Hs.
  - split; [by exists new|]. by intros _ l.
Qed.

(** ** A scripted supplier

    The browser state counts the calls of [configure_product].  The page
    shows the price "$199.99" and the details [30" x 40" vinyl]. *)

Definition demo_details : string :=
  "30" +:+ String Char.inch (" x 40" +:+ String Char.inch " vinyl").

Definition demo_page : driver nat unit :=
  {| get_element_text := fun loc b =>
       (if String.eqb loc.2 "price-display" then Some "$199.99"
        else if String.eqb loc.2 "product-details" then Some demo_details
        else None, b);
     wait_for_element := fun _ _ b => (Ok None, b);
     element_text := fun _ b => (Ok "", b);
     find_elements := fun _ b => (Ok [], b) |}.

Definition window_config : record :=
  list_to_map [("product_type", VStr "windows"); ("width", VInt 30);
               ("height", VInt 40); ("material", VStr "vinyl");
               ("color", VStr "white")].

(** Supplier 1 on [demo_page]; [configure n c] tells how the [n]-th call of
    [configure_product] ends. *)
Definition demo_supplier (configure : nat -> outcome bool) : strategy nat :=
  {| supplier_name := "Supplier_1";
     setup := fun b => (Ok tt, b);
     cleanup := fun b => b;
     login := fun b => (Ok true, b);
     get_product_configurations := [window_config];
     configure_product := fun _ b => (configure b, S b);
     extract_product_data := fun b =>
       let '(r, b') := supplier1_extract_product_data demo_page b in (Ok r, b');
     take_screenshot := fun _ b => (Ok tt, b) |}.

Definition fresh_scraper : scraper nat :=
  {| session := 0%nat; scraped_data := []; failed_items := [];
     delay_between_requests := 2; journal := [] |}.

(** Every call succeeds. *)
Definition steady : nat -> outcome bool := fun _ => Ok true.

(** The first call raises, every later call succeeds. *)
Definition flaky : nat -> outcome bool :=
  fun n => match n with
           | O => Raise (Exception "stale element reference")
           | S _ => Ok true
           end.

Definition window_record : record :=
  list_to_map [("product_type", VStr "windows"); ("price", VFloat (FNum 199.99));
               ("width", VInt 30); ("height", VInt 40);
               ("material", VStr "vinyl"); ("color", VStr "white")].

(** On the steady page the configuration ends in the success list. *)
Example steady_run :
  (scrape_all_products (demo_supplier steady) fresh_scraper).1 = Ok [window_record]
  ∧ failed_items (scrape_all_products (demo_supplier steady) fresh_scraper).2 = [].
Proof. split; vm_compute; reflexivity. Qed.

Lemma scrape_all_products_only_valid_witness :
  scraped_data fresh_scraper = []
  ∧ Forall valid_record
      (match (scrape_all_products (demo_supplier steady) fresh_scraper).1 with
       | Ok l => l
       | Raise _ => []
       end).
Proof.
  split; [reflexivity|].
  destruct (scrape_all_products_only_valid (demo_supplier steady) fresh_scraper)
    as [_ H].
  specialize (H eq_refl).
  destruct (scrape_all_products (demo_supplier steady) fresh_scraper).1 as [l|e].
  - apply H. reflexivity.
  - constructor.
Defined.

(** ** The retry decorator and the faults of the pipeline *)

Section RetryIsShadowed.
Context {browser : Type}.
Variable sup : strategy browser.

(** The screenshot of the [except] branch does not raise. *)
Definition screenshot_safe : Prop :=
  ∀ name b, ∃ b', take_screenshot sup name b = (Ok tt, b').

(** With a safe screenshot the body of [scrape_single_product] returns
    however the pipeline ends: the [except] branch turns every fault
    into [None]. *)
Lemma body_returns config s :
  screenshot_safe →
  ∃ r, (scrape_single_product_body sup config s).1 = Ok r.
Proof.
  intros Hsafe. unfold scrape_single_product_body, try_except.
  destruct (pipeline sup config s) as [[r|e] s1]; [by exists r|].
  unfold mbind, comp_bind, get, on_session, mret, comp_ret.
  destruct (Hsafe (error_screenshot_name sup (failed_items s1)) (session s1))
    as [b' ->].
  by exists None.
Qed.

(** Hence the decorator never sees a fault: the decorated function is
    the body, run once. *)
Lemma decorated_is_body config s :
  screenshot_safe →
  scrape_single_product sup config s = scrape_single_product_body sup config s.
Proof.
  intros Hsafe. destruct (body_returns config s Hsafe) as [r Hr].
  unfold scrape_single_product, retry_on_failure. simpl.
  destruct (scrape_single_product_body sup config s) as [[a|e] s1]; [done|].
  by simpl in Hr.
Qed.
End RetryIsShadowed.

(** C1 (the code at a failing input).  [configure_product] raises on its
    first call and would succeed on the second.  The decorated
    [scrape_single_product] runs the pipeline once, waits for no retry and
    returns [None]; run a second time, the same pipeline yields the record;
    [scrape_all_products] files the configuration under the failures. *)
Theorem pipeline_fault_is_not_retried :
  let first := scrape_single_product (demo_supplier flaky) window_config fresh_scraper in
  first.1 = Ok None
  ∧ journal first.2 = [Attempt window_config]
  ∧ (scrape_single_product (demo_supplier flaky) window_config first.2).1
    = Ok (Some window_record)
  ∧ (scrape_all_products (demo_supplier flaky) fresh_scraper).1 = Ok []
  ∧ failed_items (scrape_all_products (demo_supplier flaky) fresh_scraper).2
    = [window_config].
Proof. repeat split; vm_compute; reflexivity. Qed.

(** ** Combining datasets *)

Section Combine.
Variable now : nat -> string.

(** What [stamp] makes of the record it finds. *)
Definition stamped (supplier_name : string) (t : nat) (r : record) : record :=
  <["scraped_at" := VStr (now t)]> (<["supplier" := VStr supplier_name]> r).

Lemma stamp_lookup_eq name item st :
  objects (stamp now name item st) !! item
  = stamped name (clock st) <$> objects st !! item.
Proof. unfold stamp. simpl. by rewrite lookup_alter_eq. Qed.

Lemma stamp_lookup_ne name item st l :
  item ≠ l → objects (stamp now name item st) !! l = objects st !! l.
Proof. intros Hne. unfold stamp. simpl. by rewrite lookup_alter_ne. Qed.

(** The supplier and time entries of the object at [l]. *)
Definition marked (name : string) (st : store) (l : ref) : Prop :=
  ∃ r, objects st !! l = Some r
       ∧ r !! "supplier" = Some (VStr name)
       ∧ ∃ t, r !! "scraped_at" = Some (VStr (now t)).

Definition allocated (st : store) (l : ref) : Prop := is_Some (objects st !! l).

Lemma stamp_allocated name item st l :
  allocated (stamp now name item st) l ↔ allocated st l.
Proof.
  unfold allocated. destruct (decide (item = l)) as [->|Hne].
  - rewrite stamp_lookup_eq. by rewrite fmap_is_Some.
  - by rewrite stamp_lookup_ne.
Qed.

Lemma stamp_marked name item st :
  allocated st item → marked name (stamp now name item st) item.
Proof.
  intros [r Hr]. exists (stamped name (clock st) r).
  rewrite stamp_lookup_eq, Hr. split; [done|]. unfold stamped. split.
  - rewrite lookup_insert_ne by done. by rewrite lookup_insert_eq.
  - exists (clock st). by rewrite lookup_insert_eq.
Qed.

Lemma stamp_keeps_marked name name' item st l :
  item ≠ l → marked name' st l → marked name' (stamp now name item st) l.
Proof.
  intros Hne (r & Hr & Hs). exists r. by rewrite stamp_lookup_ne.
Qed.

(** The inner loop appends the references of the dataset, in order;
    it allocates nothing, leaves every other object alone and marks
    every object of the dataset. *)
Lemma combine_dataset_spec name dataset combined st :
  let res := combine_dataset now name dataset combined st in
  res.1 = combined ++ dataset
  ∧ (∀ l, allocated res.2 l ↔ allocated st l)
  ∧ (∀ l, l ∉ dataset → objects res.2 !! l = objects st !! l)
  ∧ (∀ l, l ∈ dataset → allocated st l → marked name res.2 l).
Proof.
  revert combined st.
  induction dataset as [|item rest IH]; intros combined st; simpl.
  - rewrite app_nil_r. split; [done|]. split; [done|]. split; [done|].
    intros l Hl. by apply elem_of_nil in Hl.
  - destruct (IH (combined ++ [item]) (stamp now name item st))
      as (E & A & F & Mk).
    split; [by rewrite E, <- app_assoc|].
    split; [intros l; by rewrite A, stamp_allocated|].
    split.
    + intros l Hl. apply not_elem_of_cons in Hl as [Hne Hl].
      rewrite F by done. by rewrite stamp_lookup_ne.
    + intros l Hl Hal.
      destruct (decide (l ∈ rest)) as [Hin|Hout].
      * apply Mk; [done|]. by apply stamp_allocated.
      * apply elem_of_cons in Hl as [->|Hl]; [|done].
        destruct (stamp_marked name item st Hal) as (r & Hr & Hs).
        exists r. by rewrite F.
Qed.

(** The outer loop, started at index [i]. *)
Lemma combine_from_spec i datasets names combined st :
  let res := combine_from now i datasets names combined st in
  res.1 = combined ++ mjoin datasets
  ∧ (∀ l, allocated res.2 l ↔ allocated st l)
  ∧ (∀ l, l ∉ mjoin datasets → objects res.2 !! l = objects st !! l)
  ∧ (∀ l, l ∈ mjoin datasets → allocated st l →
       ∃ j dataset, datasets !! j = Some dataset ∧ l ∈ dataset
                    ∧ marked (name_for names (i + j)) res.2 l).
Proof.
  revert i combined st.
  induction datasets as [|dataset rest IH]; intros i combined st; simpl.
  - rewrite app_nil_r. split; [done|]. split; [done|]. split; [done|].
    intros l Hl. by apply elem_of_nil in Hl.
  - pose proof (combine_dataset_spec (name_for names i) dataset combined st)
      as (E1 & A1 & F1 & M1).
    destruct (combine_dataset now (name_for names i) dataset combined st)
      as [combined1 st1]. simpl in *.
    destruct (IH (S i) combined1 st1) as (E & A & F & Mk).
    split; [by rewrite E, E1, <- app_assoc|].
    split; [intros l; by rewrite A, A1|].
    split.
    + intros l Hl. apply not_elem_of_app in Hl as [Hl1 Hl2].
      rewrite F by done. by apply F1.
    + intros l Hl Hal.
      destruct (decide (l ∈ mjoin rest)) as [Hin|Hout].
      * destruct (Mk l Hin) as (j & d & Hj & Hd & Hm); [by apply A1|].
        exists (S j), d. split; [done|]. split; [done|].
        by replace (i + S j)%nat with (S i + j)%nat by lia.
      * apply elem_of_app in Hl as [Hl|Hl]; [|done].
        exists 0%nat, dataset. split; [done|]. split; [done|].
        rewrite Nat.add_0_r.
        destruct (M1 l Hl Hal) as (r & Hr & Hs).
        exists r. by rewrite F.
Qed.

Lemma fallback_name_nonempty i : fallback_name i ≠ "".
Proof. done. Qed.

Lemma name_for_nonempty names i : "" ∉ names → name_for names i ≠ "".
Proof.
  intros Hn. unfold name_for. destruct (names !! i) as [n|] eqn:E.
  - intros ->. apply Hn. by eapply list_elem_of_lookup_2.
  - apply fallback_name_nonempty.
Qed.
End Combine.

(** The claim of the specification about [combine_datasets], as stated:
    the lengths add up and every output record has a supplier entry that
    is a non-empty string. *)
Definition combine_claim (now : nat -> string) (datasets : list (list ref))
    (supplier_names : list string) (st : store) : Prop :=
  let res := combine_datasets now datasets supplier_names st in
  length res.1 = sum_list (length <$> datasets)
  ∧ ∀ l, l ∈ res.1 →
      ∃ r s, objects res.2 !! l = Some r
             ∧ r !! "supplier" = Some (VStr s) ∧ s ≠ "".

Definition one_object : store := {| objects := {[ 0%nat := ∅ ]}; clock := 0 |}.

Definition midnight : nat -> string := fun _ => "2026-01-01T00:00:00".

(** C7, as stated, fails: a supplier name that is the empty string is
    written as it is. *)
Lemma combine_empty_name : ¬ combine_claim midnight [[0%nat]] [""] one_object.
Proof.
  intros [_ H].
  assert (objects (combine_datasets midnight [[0%nat]] [""] one_object).2 !! 0%nat
          = Some (stamped midnight "" 0 ∅)) as Hempty
    by (vm_compute; reflexivity).
  destruct (H 0%nat) as (r & s & Hr & Hs & Hne).
  - apply (bool_decide_unpack
             (0%nat ∈ (combine_datasets midnight [[0%nat]] [""] one_object).1)).
    vm_compute. reflexivity.
  - rewrite Hempty in Hr. injection Hr as <-.
    unfold stamped in Hs. rewrite lookup_insert_ne in Hs by done.
    rewrite lookup_insert_eq in Hs. congruence.
Qed.

Lemma length_mjoin {A} (ls : list (list A)) :
  length (mjoin ls) = sum_list (length <$> ls).
Proof.
  induction ls as [|l ls IH]; [done|]. simpl. by rewrite length_app, IH.
Qed.

(** C7, amended.  The output is as long as the datasets together, and
    every record in it carries, as its supplier entry, the name that
    belongs to a dataset containing it: the name given at that index, or
    the generated [Supplier_<i+1>]; the entry is a non-empty string
    whenever no given name is the empty string. *)
Theorem combine_datasets_supplier (now : nat -> string)
    (datasets : list (list ref)) (supplier_names : list string) (st : store) :
  (∀ l, l ∈ mjoin datasets → is_Some (objects st !! l)) →
  let res := combine_datasets now datasets supplier_names st in
  length res.1 = sum_list (length <$> datasets)
  ∧ ∀ l, l ∈ res.1 →
      ∃ j dataset r,
        datasets !! j = Some dataset ∧ l ∈ dataset
        ∧ objects res.2 !! l = Some r
        ∧ r !! "supplier" = Some (VStr (name_for supplier_names j))
        ∧ ("" ∉ supplier_names → name_for supplier_names j ≠ "").
Proof.
  intros Hal. unfold combine_datasets.
  pose proof (combine_from_spec now 0 datasets supplier_names [] st)
    as (E & _ & _ & Mk).
  simpl in *. split; [by rewrite E, length_mjoin|].
  intros l Hl. rewrite E in Hl.
  destruct (Mk l Hl (Hal l Hl)) as (j & d & Hj & Hd & r & Hr & Hs & _).
  exists j, d, r. repeat split; try done.
  apply name_for_nonempty.
Qed.

Ltac allocated_here :=
  match goal with
  | |- is_Some ?o => apply (bool_decide_unpack (is_Some o)); vm_compute; reflexivity
  end.

Definition two_objects : store :=
  {| objects := {[ 0%nat := ∅; 1%nat := {[ "price" := VInt 5 ]} ]}; clock := 0 |}.

Lemma combine_datasets_supplier_witness :
  let res := combine_datasets midnight [[0%nat]; [1%nat]] ["Supplier1"] two_objects in
  length res.1 = 2%nat
  ∧ ∀ l, l ∈ res.1 →
      ∃ j dataset r,
        [[0%nat]; [1%nat]] !! j = Some dataset ∧ l ∈ dataset
        ∧ objects res.2 !! l = Some r
        ∧ r !! "supplier" = Some (VStr (name_for ["Supplier1"] j))
        ∧ ("" ∉ ["Supplier1"] → name_for ["Supplier1"] j ≠ "").
Proof.
  apply (combine_datasets_supplier midnight [[0%nat]; [1%nat]] ["Supplier1"]
           two_objects).
  intros l Hl. simpl in Hl.
  apply elem_of_cons in Hl as [->|Hl]; [allocated_here|].
  apply elem_of_cons in Hl as [->|Hl]; [allocated_here|].
  by apply elem_of_nil in Hl.
Defined.

(** C10.  [combine_datasets] works in place: the returned list is the
    list of the very references of the inputs, in order; no object is
    allocated; afterwards every record object of every input dataset has a
    supplier and a time entry, so an input record that had no time entry
    is no longer what it was. *)
Theorem combine_datasets_in_place (now : nat -> string)
    (datasets : list (list ref)) (supplier_names : list string) (st : store) :
  (∀ l, l ∈ mjoin datasets → is_Some (objects st !! l)) →
  let res := combine_datasets now datasets supplier_names st in
  res.1 = mjoin datasets
  ∧ (∀ l, is_Some (objects res.2 !! l) ↔ is_Some (objects st !! l))
  ∧ (∀ l, l ∉ mjoin datasets → objects res.2 !! l = objects st !! l)
  ∧ (∀ l, l ∈ mjoin datasets →
       ∃ r, objects res.2 !! l = Some r
            ∧ is_Some (r !! "supplier") ∧ is_Some (r !! "scraped_at"))
  ∧ (∀ l r, l ∈ mjoin datasets → objects st !! l = Some r →
       r !! "scraped_at" = None → objects res.2 !! l ≠ Some r).
Proof.
  intros Hal. unfold combine_datasets.
  pose proof (combine_from_spec now 0 datasets supplier_names [] st)
    as (E & A & F & Mk).
  simpl in *. split; [done|]. split; [done|]. split; [done|].
  assert (∀ l, l ∈ mjoin datasets →
            ∃ r, objects (combine_from now 0 datasets supplier_names [] st).2 !! l
                 = Some r
                 ∧ is_Some (r !! "supplier") ∧ is_Some (r !! "scraped_at")) as Hw.
  { intros l Hl.
    destruct (Mk l Hl (Hal l Hl)) as (j & d & _ & _ & r & Hr & Hs & t & Ht).
    exists r. split; [done|]. by rewrite Hs, Ht. }
  split; [done|].
  intros l r Hl Hr Hnone Hsame.
  destruct (Hw l Hl) as (r' & Hr' & _ & [v Hv]). congruence.
Qed.

Lemma combine_datasets_in_place_witness :
  let res := combine_datasets midnight [[0%nat]; [1%nat; 0%nat]] [] two_objects in
  res.1 = [0%nat; 1%nat; 0%nat]
  ∧ ∀ l, l ∈ [0%nat; 1%nat; 0%nat] →
      ∃ r, objects res.2 !! l = Some r
           ∧ is_Some (r !! "supplier") ∧ is_Some (r !! "scraped_at").
Proof.
  assert (∀ l, l ∈ mjoin [[0%nat]; [1%nat; 0%nat]] →
            is_Some (objects two_objects !! l)) as Hal.
  { intros l Hl. simpl in Hl.
    apply elem_of_cons in Hl as [->|Hl]; [allocated_here|].
    apply elem_of_cons in Hl as [->|Hl]; [allocated_here|].
    apply elem_of_cons in Hl as [->|Hl]; [allocated_here|].
    by apply elem_of_nil in Hl. }
  destruct (combine_datasets_in_place midnight [[0%nat]; [1%nat; 0%nat]] []
              two_objects Hal) as (E & _ & _ & Hw & _).
  split; [exact E|exact Hw].
Defined.

(** ** The summary report *)





















(** ** Decimal numerals and [float()] *)

(** Facts about single characters are checked on all 256 of them. *)
Ltac each_char a :=
  destruct a as [[] [] [] [] [] [] [] []]; vm_compute; try reflexivity;
  try discriminate; try (intros; discriminate); try (intros; reflexivity).

Lemma digit_not_space a : Char.is_digit a = true → Char.is_space a = false.
Proof. revert a. intros a. each_char a. Qed.

Lemma digit_not_underscore a :
  Char.is_digit a = true → PyFloat.is_underscore a = false.
Proof. each_char a. Qed.

Lemma digit_sign a s :
  Char.is_digit a = true → PyFloat.sign (a :: s) = (false, a :: s).
Proof. each_char a. Qed.

Lemma digit_lower a : Char.is_digit a = true → Char.lower a = a.
Proof. each_char a. Qed.

Lemma digit_not_letter a :
  Char.is_digit a = true → a ≠ "i"%char ∧ a ≠ "n"%char.
Proof.
  intros H. split; intros ->; vm_compute in H; discriminate.
Qed.

(** A character of a numeral: a digit or the point. *)
Definition numeric (a : ascii) : bool :=
  Char.is_digit a || bool_decide (a = "."%char).

Lemma numeric_not_space a : numeric a = true → Char.is_space a = false.
Proof. each_char a. Qed.

Lemma numeric_not_underscore a :
  numeric a = true → PyFloat.is_underscore a = false.
Proof. each_char a. Qed.

Lemma lstrip_id s :
  Forall (fun a => Char.is_space a = false) s → PyFloat.lstrip s = s.
Proof. destruct 1 as [|a s Ha _]; [done|]. simpl. by rewrite Ha. Qed.

Lemma strip_id s :
  Forall (fun a => Char.is_space a = false) s → PyFloat.strip s = s.
Proof.
  intros H. unfold PyFloat.strip. rewrite (lstrip_id s H).
  rewrite lstrip_id; [apply rev_involutive|].
  apply Forall_forall. intros a Ha. apply list_elem_of_In, in_rev in Ha.
  rewrite Forall_forall in H. apply H. by apply list_elem_of_In.
Qed.

Lemma underscores_ok_none prev s :
  match prev with Some p => PyFloat.is_underscore p = false | None => True end →
  Forall (fun a => PyFloat.is_underscore a = false) s →
  PyFloat.underscores_ok prev s = true.
Proof.
  intros Hp Hs. revert prev Hp.
  induction Hs as [|a s Ha _ IH]; intros prev Hp; simpl.
  - destruct prev; [by rewrite Hp|done].
  - rewrite Ha. rewrite IH by done.
    destruct prev; [by rewrite Hp|done].
Qed.

Lemma filter_underscore_id s :
  Forall (fun a => PyFloat.is_underscore a = false) s →
  filter (fun a => a ≠ "_"%char) s = s.
Proof.
  induction 1 as [|a s Ha _ IH]; [done|].
  rewrite filter_cons_True; [by rewrite IH|].
  unfold PyFloat.is_underscore in Ha. by apply bool_decide_eq_false in Ha.
Qed.

(** In front of something that does not start with a digit, the digits
    are the longest prefix of digits. *)
Definition no_digit_ahead (rest : list ascii) : Prop :=
  match rest with
  | [] => True
  | a :: _ => Char.is_digit a = false
  end.

Lemma span_digits_app d rest :
  Forall (fun a => Char.is_digit a = true) d → no_digit_ahead rest →
  PyFloat.span_digits (d ++ rest) = (d, rest).
Proof.
  intros Hd Hr. induction Hd as [|a d Ha _ IH]; simpl.
  - destruct rest as [|b rest]; [done|]. simpl in *. by rewrite Hr.
  - by rewrite Ha, IH.
Qed.

(** A numeral: integer digits, then possibly a point followed by
    fraction digits. *)
Record numeral := {
  int_part : list ascii;
  point : bool;
  frac_part : list ascii;
}.

Record well_formed (n : numeral) : Prop := {
  wf_int : Forall (fun a => Char.is_digit a = true) (int_part n);
  wf_int_nonempty : int_part n ≠ [];
  wf_frac : Forall (fun a => Char.is_digit a = true) (frac_part n);
  wf_point : point n = false → frac_part n = [];
}.

Definition tail_chars (n : numeral) : list ascii :=
  if point n then "."%char :: frac_part n else [].

Definition numeral_chars (n : numeral) : list ascii := int_part n ++ tail_chars n.

(** The number a numeral denotes. *)
Definition numeral_value (n : numeral) : Q :=
  PyFloat.scale (PyFloat.digits_value (int_part n ++ frac_part n))
                (0 - Z.of_nat (length (frac_part n))).

Lemma numeral_numeric n :
  well_formed n → Forall (fun a => numeric a = true) (numeral_chars n).
Proof.
  intros [Hi _ Hf _]. unfold numeral_chars, tail_chars.
  apply Forall_app. split.
  - eapply Forall_impl; [exact Hi|]. intros a Ha. unfold numeric. by rewrite Ha.
  - destruct (point n); [|done]. constructor; [done|].
    eapply Forall_impl; [exact Hf|]. intros a Ha. unfold numeric. by rewrite Ha.
Qed.

Lemma decimal_numeral n :
  well_formed n → PyFloat.decimal (numeral_chars n) = Some (numeral_value n).
Proof.
  intros [Hi Hne Hf Hp]. unfold PyFloat.decimal, numeral_chars, tail_chars.
  destruct (point n) eqn:E.
  - rewrite span_digits_app; [|done|done].
    rewrite <- (app_nil_r (frac_part n)) at 1.
    rewrite span_digits_app; [|done|done].
    destruct (int_part n ++ frac_part n) eqn:E2.
    { apply app_eq_nil in E2 as [? _]. done. }
    rewrite <- E2. reflexivity.
  - rewrite span_digits_app; [|done|done].
    destruct (int_part n ++ []) eqn:E2.
    { apply app_eq_nil in E2 as [? _]. done. }
    rewrite <- E2. unfold numeral_value. rewrite (Hp eq_refl). reflexivity.
Qed.

(** [float()] accepts every numeral and returns the number it denotes. *)
Lemma of_chars_numeral n :
  well_formed n →
  PyFloat.of_chars (numeral_chars n) = Some (FNum (numeral_value n)).
Proof.
  intros Hwf. pose proof (numeral_numeric n Hwf) as Hnum.
  unfold PyFloat.of_chars.
  rewrite strip_id
    by (eapply Forall_impl; [exact Hnum|apply numeric_not_space]).
  assert (Forall (fun a => PyFloat.is_underscore a = false) (numeral_chars n)) as Hu
    by (eapply Forall_impl; [exact Hnum|apply numeric_not_underscore]).
  rewrite underscores_ok_none by done.
  rewrite filter_underscore_id by done.
  pose proof (decimal_numeral n Hwf) as Hdec.
  destruct Hwf as [Hi Hne _ _]. unfold numeral_chars in *.
  destruct (int_part n) as [|a ip]; [done|].
  apply Forall_cons in Hi as [Ha _].
  change ((a :: ip) ++ tail_chars n) with (a :: ip ++ tail_chars n) in *.
  rewrite digit_sign by done.
  destruct (digit_not_letter a Ha) as [Hi' Hn'].
  cbn [map text string_of_list_ascii]. rewrite (digit_lower a Ha).
  rewrite bool_decide_eq_false_2.
  2:{ intros [H|H]; injection H; intros; congruence. }
  rewrite bool_decide_eq_false_2.
  2:{ intros H; injection H; intros; congruence. }
  by rewrite Hdec.
Qed.

(** ** What a match of the backtracking matcher looks like *)

Section MatcherSound.
Variable ic : bool.

(** The piece of text a token may take. *)
Definition tok_accepts (t : tok) (w : list ascii) : Prop :=
  match t with
  | One c => ∃ a, w = [a] ∧ cls_match ic c a = true
  | Opt c => w = [] ∨ ∃ a, w = [a] ∧ cls_match ic c a = true
  | Star c => Forall (fun a => cls_match ic c a = true) w
  | Plus c => w ≠ [] ∧ Forall (fun a => cls_match ic c a = true) w
  end.

(** A pattern matches a text cut into one piece per token. *)
Definition parses (p : list (option nat * tok)) (ws : list (list ascii)) : Prop :=
  Forall2 (fun gt w => tok_accepts gt.2 w) p ws.

(** The captures after the pieces [ws] were taken by the tokens of [p]. *)
Fixpoint feed (p : list (option nat * tok)) (ws : list (list ascii))
    (m : captures) : captures :=
  match p, ws with
  | (g, _) :: p', w :: ws' => feed p' ws' (push g w m)
  | _, _ => m
  end.

Lemma push_app g w1 w2 m j : push g (w1 ++ w2) m j = push g w2 (push g w1 m) j.
Proof.
  destruct g as [i|]; simpl; [|done].
  destruct (j =? i)%nat; [by rewrite app_assoc|done].
Qed.

Lemma push_nil g m j : push g [] m j = m j.
Proof.
  destruct g as [i|]; simpl; [|done].
  destruct (j =? i)%nat; [by rewrite app_nil_r|done].
Qed.

Lemma push_ext g w m1 m2 :
  (∀ j, m1 j = m2 j) → ∀ j, push g w m1 j = push g w m2 j.
Proof.
  intros H j. destruct g as [i|]; simpl; [|done].
  destruct (j =? i)%nat; by rewrite H.
Qed.

Lemma feed_ext p ws m1 m2 :
  (∀ j, m1 j = m2 j) → ∀ j, feed p ws m1 j = feed p ws m2 j.
Proof.
  revert ws m1 m2. induction p as [|[g t] p IH]; intros ws m1 m2 H j; [done|].
  destruct ws as [|w ws]; [done|]. simpl. apply IH. by apply push_ext.
Qed.

Lemma single_sound c g k s m r :
  single ic c g k s m = Some r →
  ∃ a rest, s = a :: rest ∧ cls_match ic c a = true ∧ k rest (push g [a] m) = Some r.
Proof.
  unfold single. destruct s as [|a s]; [done|].
  destruct (cls_match ic c a) eqn:E; [|done]. intros H. by exists a, s.
Qed.

Lemma many_sound c g k s m r :
  many ic c g k s m = Some r →
  ∃ w rest m1,
    s = w ++ rest ∧ Forall (fun a => cls_match ic c a = true) w
    ∧ (∀ j, m1 j = push g w m j) ∧ k rest m1 = Some r.
Proof.
  revert m. induction s as [|a s IH]; intros m; simpl.
  - intros H. exists [], [], m. split; [done|]. split; [done|].
    split; [intros j; by rewrite push_nil|done].
  - assert (k (a :: s) m = Some r →
            ∃ w rest m1,
              a :: s = w ++ rest ∧ Forall (fun a => cls_match ic c a = true) w
              ∧ (∀ j, m1 j = push g w m j) ∧ k rest m1 = Some r) as Hstop.
    { intros H. exists [], (a :: s), m. split; [done|]. split; [done|].
      split; [intros j; by rewrite push_nil|done]. }
    destruct (cls_match ic c a) eqn:E; [|done].
    destruct (many ic c g k s (push g [a] m)) as [r'|] eqn:Em; [|done].
    intros [= ->].
    destruct (IH _ Em) as (w & rest & m1 & -> & Hw & Hm & Hk).
    exists (a :: w), rest, m1. split; [done|]. split; [by constructor|].
    split; [|done]. intros j. rewrite Hm.
    by rewrite (push_app g [a] w).
Qed.

(** Every match cuts a prefix of the text into pieces the tokens accept,
    and captures what those pieces feed. *)
Lemma run_sound p s m r :
  run ic p s m = Some r →
  ∃ ws rest, parses p ws ∧ s = mjoin ws ++ rest ∧ ∀ j, r j = feed p ws m j.
Proof.
  revert s m. induction p as [|[g t] p IH]; intros s m; simpl.
  - intros [= <-]. exists [], s. split; [constructor|done].
  - destruct t as [c|c|c|c].
    + intros H. apply single_sound in H as (a & rest & -> & Ha & Hk).
      destruct (IH _ _ Hk) as (ws & rest' & Hp & -> & Hr).
      exists ([a] :: ws), rest'. split; [constructor; [by exists a|done]|].
      split; [done|]. exact Hr.
    + destruct (single ic c g (run ic p) s m) as [r'|] eqn:E.
      * intros [= ->]. apply single_sound in E as (a & rest & -> & Ha & Hk).
        destruct (IH _ _ Hk) as (ws & rest' & Hp & -> & Hr).
        exists ([a] :: ws), rest'.
        split; [constructor; [right; by exists a|done]|].
        split; [done|]. exact Hr.
      * intros H. destruct (IH _ _ H) as (ws & rest' & Hp & -> & Hr).
        exists ([] :: ws), rest'. split; [constructor; [by left|done]|].
        split; [done|]. intros j. rewrite Hr. simpl.
        apply feed_ext. intros j'. by rewrite push_nil.
    + intros H. apply many_sound in H as (w & rest & m1 & -> & Hw & Hm & Hk).
      destruct (IH _ _ Hk) as (ws & rest' & Hp & -> & Hr).
      exists (w :: ws), rest'. split; [by constructor|].
      split; [simpl; by rewrite <- app_assoc|].
      intros j. rewrite Hr. simpl. by apply feed_ext.
    + intros H. apply single_sound in H as (a & rest & -> & Ha & Hk).
      apply many_sound in Hk as (w & rest' & m1 & -> & Hw & Hm & Hk).
      destruct (IH _ _ Hk) as (ws & rest'' & Hp & -> & Hr).
      exists ((a :: w) :: ws), rest''.
      split; [constructor; [split; [done|by constructor]|done]|].
      split; [simpl; by rewrite <- app_assoc|].
      intros j. rewrite Hr. simpl. apply feed_ext. intros j'.
      rewrite Hm. by rewrite (push_app g [a] w).
Qed.

Lemma search_chars_sound p s r :
  search_chars ic p s = Some r →
  ∃ pre ws rest,
    parses p ws ∧ s = pre ++ mjoin ws ++ rest
    ∧ ∀ j, r j = feed p ws no_captures j.
Proof.
  induction s as [|a s IH]; simpl.
  - destruct (run ic p [] no_captures) as [r'|] eqn:E; [|done].
    intros [= ->]. destruct (run_sound _ _ _ _ E) as (ws & rest & Hp & Hs & Hr).
    by exists [], ws, rest.
  - destruct (run ic p (a :: s) no_captures) as [r'|] eqn:E.
    + intros [= ->]. destruct (run_sound _ _ _ _ E) as (ws & rest & Hp & Hs & Hr).
      by exists [], ws, rest.
    + intros H. destruct (IH H) as (pre & ws & rest & Hp & -> & Hr).
      by exists (a :: pre), ws, rest.
Qed.

(** Tokens outside every group capture nothing. *)
Lemma feed_untagged p ws m j :
  Forall (fun gt => gt.1 = None) p → feed p ws m j = m j.
Proof.
  intros H. revert ws m. induction H as [|[g t] p Hg _ IH]; intros ws m; [done|].
  destruct ws as [|w ws]; [done|]. simpl in *. subst g. by rewrite IH.
Qed.

(** The tokens of group [g] capture the pieces they take, in order. *)
Lemma feed_group g ts ws m :
  length ws = length ts →
  feed (map (fun t => (Some g, t)) ts) ws m g = m g ++ mjoin ws.
Proof.
  revert ws m. induction ts as [|t ts IH]; intros ws m Hl.
  - destruct ws; [|done]. simpl. by rewrite app_nil_r.
  - destruct ws as [|w ws]; [done|]. simpl in *. rewrite IH by lia.
    simpl. rewrite Nat.eqb_refl. by rewrite app_assoc.
Qed.

Lemma feed_app p1 p2 ws1 ws2 m :
  length ws1 = length p1 →
  feed (p1 ++ p2) (ws1 ++ ws2) m = feed p2 ws2 (feed p1 ws1 m).
Proof.
  revert ws1 m. induction p1 as [|[g t] p1 IH]; intros ws1 m Hl.
  - by destruct ws1.
  - destruct ws1 as [|w ws1]; [done|]. simpl in *. apply IH. lia.
Qed.

Lemma parses_tagged g ts ws :
  parses (map (fun t => (Some g, t)) ts) ws → Forall2 tok_accepts ts ws.
Proof.
  revert ws. induction ts as [|t ts IH]; intros ws H; inversion H; subst.
  - constructor.
  - constructor; [done|]. by apply IH.
Qed.

(** A pattern with one capturing group [g] between uncaptured tokens: the
    group captures a piece of the matched text that its tokens accept. *)
Lemma parses_group pre ts post g ws :
  Forall (fun gt => gt.1 = None) pre → Forall (fun gt => gt.1 = None) post →
  parses (pre ++ map (fun t => (Some g, t)) ts ++ post) ws →
  ∃ ws1 wsg ws2,
    ws = ws1 ++ wsg ++ ws2
    ∧ Forall2 tok_accepts ts wsg
    ∧ feed (pre ++ map (fun t => (Some g, t)) ts ++ post) ws no_captures g
      = mjoin wsg.
Proof.
  intros Hpre Hpost Hp. unfold parses in Hp.
  apply Forall2_app_inv_l in Hp as (ws1 & ws' & H1 & Hp & ->).
  apply Forall2_app_inv_l in Hp as (wsg & ws2 & Hg & H2 & ->).
  exists ws1, wsg, ws2. split; [done|]. split.
  - by apply (parses_tagged g).
  - pose proof (Forall2_length _ _ _ H1) as L1.
    pose proof (Forall2_length _ _ _ Hg) as Lg. rewrite length_map in Lg.
    rewrite feed_app by done.
    rewrite feed_app by by rewrite length_map.
    rewrite feed_untagged by done.
    rewrite feed_group by done.
    by rewrite feed_untagged.
Qed.

End MatcherSound.

(** ** Price extraction *)

Lemma chars_text l : chars (text l) = l.
Proof. apply list_ascii_of_string_of_list_ascii. Qed.

Lemma text_chars s : text (chars s) = s.
Proof. apply string_of_list_ascii_of_string. Qed.

Definition comma_free (l : list ascii) : Prop := Forall (fun a => a ≠ ","%char) l.

Lemma remove_commas_free txt : comma_free (chars (remove_commas txt)).
Proof.
  unfold remove_commas, comma_free. rewrite chars_text.
  apply Forall_forall. intros a Ha. by apply list_elem_of_filter in Ha as [? _].
Qed.

Lemma remove_commas_id l : comma_free l → remove_commas (text l) = text l.
Proof.
  intros H. unfold remove_commas. rewrite chars_text. f_equal.
  induction H as [|a l Ha _ IH]; [done|].
  by rewrite filter_cons_True, IH.
Qed.

Lemma digits_are_digits l :
  Forall (fun a => cls_match false Digit a = true) l →
  Forall (fun a => Char.is_digit a = true) l.
Proof. done. Qed.

Lemma lit_matches b a : cls_match false (Lit b) a = true → a = b.
Proof. simpl. apply bool_decide_eq_true. Qed.

(** The pieces taken by [\d+,?\d*\.?\d+] in a text without commas spell a
    numeral. *)
Lemma price_number_numeral wsg :
  Forall2 (tok_accepts false) price_number wsg → comma_free (mjoin wsg) →
  ∃ n, well_formed n ∧ mjoin wsg = numeral_chars n.
Proof.
  unfold price_number. intros H Hfree.
  apply Forall2_cons_inv_l in H as (d1 & ws & [Hne1 Hd1] & H & ->).
  apply Forall2_cons_inv_l in H as (c & ws' & Hc & H & ->).
  apply Forall2_cons_inv_l in H as (d2 & ws & Hd2 & H & ->).
  apply Forall2_cons_inv_l in H as (dot & ws' & Hdot & H & ->).
  apply Forall2_cons_inv_l in H as (d3 & ws & [Hne3 Hd3] & H & ->).
  apply Forall2_nil_inv_l in H as ->.
  simpl in Hd2. apply digits_are_digits in Hd1, Hd2, Hd3.
  assert (c = []) as ->.
  { destruct Hc as [->|(a & -> & Ha)]; [done|]. apply lit_matches in Ha as ->.
    exfalso. unfold comma_free in Hfree. simpl in Hfree.
    rewrite Forall_app in Hfree. destruct Hfree as [_ Hfree].
    by apply Forall_cons in Hfree as [? _]. }
  simpl. rewrite app_nil_r.
  destruct Hdot as [->|(a & -> & Ha)].
  - exists {| int_part := d1 ++ d2 ++ d3; point := false; frac_part := [] |}.
    split.
    + split; simpl; [|by destruct d1|done|done].
      by rewrite !Forall_app.
    + unfold numeral_chars, tail_chars. simpl. by rewrite app_nil_r.
  - apply lit_matches in Ha as ->.
    exists {| int_part := d1 ++ d2; point := true; frac_part := d3 |}.
    split.
    + split; simpl; [|by destruct d1|done|done].
      by rewrite Forall_app.
    + unfold numeral_chars, tail_chars. simpl. by rewrite <- app_assoc.
Qed.

(** A price pattern: the price number as group 1, between tokens that
    capture nothing. *)
Definition price_shaped (pattern : regex) : Prop :=
  ∃ pre post,
    Forall (fun gt => gt.1 = None) pre ∧ Forall (fun gt => gt.1 = None) post
    ∧ flat pattern = pre ++ map (fun t => (Some 1%nat, t)) price_number ++ post.

Lemma untagged_flat (r : regex) :
  Forall (fun n => match n with T _ => True | G _ _ => False end) r →
  Forall (fun gt : option nat * tok => gt.1 = None) (flat r).
Proof.
  induction 1 as [|n r Hn _ IH]; [constructor|].
  destruct n as [t|g ts]; [|done]. by constructor.
Qed.

Lemma price_patterns_shaped : Forall price_shaped price_patterns.
Proof.
  unfold price_patterns. repeat apply Forall_cons_2; [| | | |constructor].
  - exists (flat [T (Opt (Lit "$"))]), []. by repeat split; repeat constructor.
  - exists [], (flat [T (Star Space); T (One (Lit "$"))]).
    by repeat split; repeat constructor.
  - exists (flat (lit "Price:" ++ [T (Star Space); T (Opt (Lit "$"))])), [].
    by repeat split; repeat constructor.
  - exists (flat (lit "Cost:" ++ [T (Star Space); T (Opt (Lit "$"))])), [].
    by repeat split; repeat constructor.
Qed.

(** What a price pattern captures in a text without commas is a numeral. *)
Lemma price_match_numeral pattern s m :
  price_shaped pattern → comma_free (chars s) →
  search false pattern s = Some m →
  ∃ n, well_formed n ∧ m 1%nat = text (numeral_chars n).
Proof.
  intros (pre & post & Hpre & Hpost & Hflat) Hfree. unfold search.
  destruct (search_chars false (flat pattern) (chars s)) as [r|] eqn:E; [|done].
  intros [= <-].
  apply search_chars_sound in E as (skip & ws & rest & Hp & Hs & Hr).
  rewrite Hflat in Hp, Hr.
  destruct (parses_group false pre price_number post 1 ws Hpre Hpost Hp)
    as (ws1 & wsg & ws2 & -> & Hg & Hfeed).
  rewrite Hr, Hfeed.
  destruct (price_number_numeral wsg Hg) as (n & Hwf & ->); [|by exists n].
  unfold comma_free in *. rewrite Hs in Hfree.
  rewrite !join_app, !Forall_app in Hfree. tauto.
Qed.

(** The first pattern, in the order of the list, that matches somewhere,
    and the text of its group 1. *)
Fixpoint first_match (patterns : list regex) (s : string) : option string :=
  match patterns with
  | [] => None
  | pattern :: rest =>
      match search false pattern s with
      | Some m => Some (m 1%nat)
      | None => first_match rest s
      end
  end.

Lemma extract_price_loop_first patterns s :
  Forall price_shaped patterns → comma_free (chars s) →
  match first_match patterns s with
  | Some g =>
      ∃ n, well_formed n ∧ g = text (numeral_chars n)
           ∧ extract_price_loop patterns s = Some (FNum (numeral_value n))
  | None => extract_price_loop patterns s = None
  end.
Proof.
  intros Hshape Hfree. induction Hshape as [|pattern rest Hp _ IH]; [done|].
  simpl. destruct (search false pattern s) as [m|] eqn:E; [|exact IH].
  destruct (price_match_numeral pattern s m Hp Hfree E) as (n & Hwf & Hm).
  exists n. split; [done|]. split; [done|].
  rewrite Hm. rewrite remove_commas_id.
  - unfold PyFloat.of_string. rewrite chars_text. by rewrite of_chars_numeral.
  - rewrite <- (chars_text (numeral_chars n)), <- Hm.
    unfold search in E.
    destruct (search_chars false (flat pattern) (chars s)) as [r|] eqn:E';
      [|done].
    injection E as <-. rewrite chars_text.
    destruct Hp as (pre & post & Hpre & Hpost & Hflat).
    apply search_chars_sound in E' as (skip & ws & rest' & Hp & Hs & Hr).
    rewrite Hflat in Hp, Hr.
    destruct (parses_group false pre price_number post 1 ws Hpre Hpost Hp)
      as (ws1 & wsg & ws2 & -> & Hg & Hfeed).
    rewrite Hr, Hfeed. unfold comma_free in *. rewrite Hs in Hfree.
    rewrite !join_app, !Forall_app in Hfree. tauto.
Qed.

(** C5.  On the input with its commas removed, the first pattern of the
    list that matches decides: [extract_price] returns the number its
    group denotes; when no pattern matches it returns [None]. *)
Theorem extract_price_first_match :
  (∀ txt,
     match first_match price_patterns (remove_commas txt) with
     | Some g =>
         ∃ q, PyFloat.of_string g = Some (FNum q)
              ∧ extract_price txt = Some (FNum q)
     | None => extract_price txt = None
     end)
  ∧ extract_price "Price: $1,234.50" = Some (FNum (Qred 1234.5))
  ∧ extract_price "no price here" = None.
Proof.
  split; [|split; vm_compute; reflexivity].
  intros txt. unfold extract_price.
  destruct (String.eqb txt "") eqn:E.
  - apply String.eqb_eq in E as ->. vm_compute. reflexivity.
  - pose proof (extract_price_loop_first price_patterns (remove_commas txt)
                  price_patterns_shaped (remove_commas_free txt)) as H.
    destruct (first_match price_patterns (remove_commas txt)) as [g|]; [|done].
    destruct H as (n & Hwf & -> & Hloop).
    exists (numeral_value n). split; [|done].
    unfold PyFloat.of_string. rewrite chars_text. by apply of_chars_numeral.
Qed.

(** ** The greedy path of the matcher *)

Section Greedy.
Variable ic : bool.

(** The class [c] cannot take the next character of [rest]. *)
Definition stops (c : cls) (rest : list ascii) : Prop :=
  match rest with
  | [] => True
  | a :: _ => cls_match ic c a = false
  end.

(** The captures after the characters of [w] were taken one by one. *)
Fixpoint push_each (g : option nat) (w : list ascii) (m : captures) : captures :=
  match w with
  | [] => m
  | a :: w' => push_each g w' (push g [a] m)
  end.

Lemma push_each_eq g w m j : push_each g w m j = push g w m j.
Proof.
  revert m. induction w as [|a w IH]; intros m; simpl.
  - by rewrite push_nil.
  - rewrite IH. by rewrite (push_app g [a] w).
Qed.

(** When the rest of the pattern succeeds after the longest run, that is
    the match. *)
Lemma many_greedy c g k w rest m r :
  Forall (fun a => cls_match ic c a = true) w → stops c rest →
  k rest (push_each g w m) = Some r →
  many ic c g k (w ++ rest) m = Some r.
Proof.
  intros Hw Hstop. revert m.
  induction Hw as [|a w Ha _ IH]; intros m Hk; simpl in *.
  - destruct rest as [|b rest]; [done|]. simpl in *. by rewrite Hstop.
  - rewrite Ha. by rewrite (IH _ Hk).
Qed.

Lemma run_one g c p a s m :
  cls_match ic c a = true →
  run ic ((g, One c) :: p) (a :: s) m = run ic p s (push g [a] m).
Proof. intros Ha. simpl. by rewrite Ha. Qed.

Lemma run_opt_take g c p a s m r :
  cls_match ic c a = true → run ic p s (push g [a] m) = Some r →
  run ic ((g, Opt c) :: p) (a :: s) m = Some r.
Proof. intros Ha Hr. simpl. by rewrite Ha, Hr. Qed.

Lemma run_opt_skip g c p s m :
  stops c s → run ic ((g, Opt c) :: p) s m = run ic p s m.
Proof.
  intros Hs. destruct s as [|a s]; [done|]. simpl in *. by rewrite Hs.
Qed.

Lemma run_star g c p w rest m r :
  Forall (fun a => cls_match ic c a = true) w → stops c rest →
  run ic p rest (push_each g w m) = Some r →
  run ic ((g, Star c) :: p) (w ++ rest) m = Some r.
Proof. intros Hw Hs Hr. simpl. by apply many_greedy. Qed.

Lemma run_plus g c p w rest m r :
  w ≠ [] → Forall (fun a => cls_match ic c a = true) w → stops c rest →
  run ic p rest (push_each g w m) = Some r →
  run ic ((g, Plus c) :: p) (w ++ rest) m = Some r.
Proof.
  intros Hne Hw Hs Hr. destruct w as [|a w]; [done|].
  apply Forall_cons in Hw as [Ha Hw]. simpl. rewrite Ha.
  by apply many_greedy.
Qed.

(** What group [g] and the others hold once a numeral was taken. *)
Definition capture_numeral (g : option nat) (n : numeral) (m : captures)
    : captures :=
  let m1 := push_each g (int_part n) m in
  let m2 := if point n then push g ["."%char] m1 else m1 in
  push_each g (frac_part n) m2.

Lemma capture_numeral_eq g n m j :
  well_formed n → capture_numeral g n m j = push g (numeral_chars n) m j.
Proof.
  intros Hwf. unfold capture_numeral, numeral_chars, tail_chars.
  rewrite push_each_eq. destruct (point n) eqn:E.
  - rewrite (push_app g (int_part n)).
    rewrite (push_app g ["."%char] (frac_part n)).
    apply push_ext. intros j'. apply push_ext. intros j''.
    apply push_each_eq.
  - rewrite (wf_point n Hwf E). rewrite push_nil, app_nil_r.
    apply push_each_eq.
Qed.

(** What may follow a numeral for the greedy path to take all of it and
    no more: neither a digit nor a point. *)
Definition ends_numeral (rest : list ascii) : Prop :=
  match rest with
  | [] => True
  | a :: _ => numeric a = false
  end.

Lemma ends_stops_digit rest : ends_numeral rest → stops Digit rest.
Proof.
  destruct rest as [|a rest]; [done|]. simpl. unfold numeric.
  intros H. by apply orb_false_iff in H as [? _].
Qed.

Lemma ends_stops_point rest : ends_numeral rest → stops (Lit ".") rest.
Proof.
  destruct rest as [|a rest]; [done|]. simpl. unfold numeric.
  intros H. apply orb_false_iff in H as [_ H].
  apply bool_decide_eq_false in H.
  destruct ic; apply bool_decide_eq_false; [|done].
  intros Hl. apply H. clear H. revert Hl. each_char a.
Qed.

Lemma point_matches : cls_match ic (Lit ".") "."%char = true.
Proof. by destruct ic. Qed.

Lemma digits_match l :
  Forall (fun a => Char.is_digit a = true) l →
  Forall (fun a => cls_match ic Digit a = true) l.
Proof. done. Qed.

(** The tokens of [\d+\.?\d*] in group [g] take a whole numeral. *)
Lemma run_numeral g n p rest m r :
  well_formed n → ends_numeral rest →
  run ic p rest (capture_numeral (Some g) n m) = Some r →
  run ic (map (fun t => (Some g, t)) dim_number ++ p) (numeral_chars n ++ rest) m
  = Some r.
Proof.
  intros Hwf Hend Hr. unfold dim_number, numeral_chars, tail_chars.
  cbn [map app]. rewrite <- app_assoc.
  unfold capture_numeral in Hr.
  destruct (point n) eqn:E.
  - apply run_plus;
      [apply (wf_int_nonempty n Hwf)|apply digits_match, (wf_int n Hwf)|done|].
    cbn [app]. apply run_opt_take; [apply point_matches|].
    apply run_star;
      [apply digits_match, (wf_frac n Hwf)|by eapply ends_stops_digit|done].
  - rewrite (wf_point n Hwf E) in *. cbn [app push_each] in *.
    apply run_plus;
      [apply (wf_int_nonempty n Hwf)|apply digits_match, (wf_int n Hwf)
      |by eapply ends_stops_digit|].
    rewrite run_opt_skip by by eapply ends_stops_point.
    apply (run_star (Some g) Digit p [] rest);
      [done|by eapply ends_stops_digit|done].
Qed.

(** A match at the start of the text is what [search] returns. *)
Lemma search_chars_here p s r :
  run ic p s no_captures = Some r → search_chars ic p s = Some r.
Proof. intros H. destruct s; simpl; by rewrite H. Qed.

(** Where nothing can be parsed there is no match. *)
Lemma search_chars_none p s :
  (∀ pre ws rest, parses ic p ws → s ≠ pre ++ mjoin ws ++ rest) →
  search_chars ic p s = None.
Proof.
  intros H. destruct (search_chars ic p s) as [r|] eqn:E; [|done].
  apply search_chars_sound in E as (pre & ws & rest & Hp & Hs & _).
  by destruct (H pre ws rest Hp).
Qed.

(** A single-character token of the pattern takes a character of the
    matched text. *)
Lemma parses_one_elem p ws g c :
  parses ic p ws → (g, One c) ∈ p →
  ∃ a, a ∈ mjoin ws ∧ cls_match ic c a = true.
Proof.
  intros Hp. induction Hp as [|[g' t] w p ws Ht _ IH]; intros Hin.
  - by apply elem_of_nil in Hin.
  - apply elem_of_cons in Hin as [[= <- <-]|Hin].
    + destruct Ht as (a & -> & Ha). exists a. split; [|done]. simpl. left.
    + destruct (IH Hin) as (a & Ha & Hc). exists a. split; [|done].
      simpl. apply elem_of_app. by right.
Qed.

End Greedy.

(** ** Dimension extraction *)

(** A separator: [x], [X] or the multiplication sign. *)
Definition is_sep (a : ascii) : bool := cls_match true x_or_times a.

Lemma sep_chars a : a ∈ ["x"%char; "X"%char; Char.times] → is_sep a = true.
Proof.
  intros H. repeat (apply elem_of_cons in H as [->|H]; [by vm_compute|]).
  by apply elem_of_nil in H.
Qed.

Lemma space_not_numeric a : Char.is_space a = true → numeric a = false.
Proof. each_char a. Qed.

Lemma sep_not_numeric a : is_sep a = true → numeric a = false.
Proof. each_char a. Qed.

Lemma sep_not_space a : is_sep a = true → Char.is_space a = false.
Proof. each_char a. Qed.

Lemma numeric_not_sep a : numeric a = true → is_sep a = false.
Proof. each_char a. Qed.

Lemma space_not_sep a : Char.is_space a = true → is_sep a = false.
Proof. each_char a. Qed.

(** The characters a text of the form is made of. *)
Definition plain (a : ascii) : bool :=
  numeric a || bool_decide (a = Char.inch) || Char.is_space a || is_sep a.

Lemma plain_not_w a : plain a = true → cls_match true (Lit "W") a = false.
Proof. each_char a. Qed.

(** [clear b s]: in [s] no separator follows a numeral directly or after
    spaces; [b] tells that a numeral character was the last thing before
    [s] that is not a space. *)
Fixpoint clear (b : bool) (s : list ascii) : bool :=
  match s with
  | [] => true
  | a :: s' =>
      if is_sep a then negb b && clear false s'
      else if Char.is_space a then clear b s'
      else clear (numeric a) s'
  end.

Lemma clear_spaces b sp s :
  Forall (fun a => Char.is_space a = true) sp → clear b (sp ++ s) = clear b s.
Proof.
  induction 1 as [|a sp Ha _ IH]; [done|]. simpl.
  by rewrite (space_not_sep a Ha), Ha.
Qed.

Lemma clear_numerals b num s :
  num ≠ [] → Forall (fun a => numeric a = true) num →
  clear b (num ++ s) = clear true s.
Proof.
  intros Hne H. revert b. induction H as [|a num Ha _ IH]; intros b; [done|].
  simpl. rewrite (numeric_not_sep a Ha), (numeric_not_space a Ha), Ha.
  destruct num as [|a' num]; [done|]. by apply IH.
Qed.

(** A numeral, spaces and a separator in a row are not [clear]. *)
Lemma clear_violation b pre num sp x rest :
  num ≠ [] → Forall (fun a => numeric a = true) num →
  Forall (fun a => Char.is_space a = true) sp → is_sep x = true →
  clear b (pre ++ num ++ sp ++ x :: rest) = false.
Proof.
  intros Hne Hnum Hsp Hx. revert b. induction pre as [|a pre IH]; intros b.
  - simpl. rewrite clear_numerals, clear_spaces by done. simpl. by rewrite Hx.
  - simpl. destruct (is_sep a); [by rewrite IH, andb_false_r|].
    by destruct (Char.is_space a).
Qed.

(** A text [<w> x <h>]: the two numerals, each possibly followed by an
    inch mark, around a separator with optional spaces on both sides. *)
Record dim_text := {
  width_numeral : numeral;
  width_inch : bool;
  before_sep : list ascii;
  separator : ascii;
  after_sep : list ascii;
  height_numeral : numeral;
  height_inch : bool;
}.

Definition mark (b : bool) : list ascii := if b then [Char.inch] else [].

Definition dim_chars (d : dim_text) : list ascii :=
  numeral_chars (width_numeral d) ++ mark (width_inch d) ++ before_sep d
    ++ separator d :: after_sep d
    ++ numeral_chars (height_numeral d) ++ mark (height_inch d).

Record dim_ok (d : dim_text) : Prop := {
  ok_width : well_formed (width_numeral d);
  ok_height : well_formed (height_numeral d);
  ok_before : Forall (fun a => Char.is_space a = true) (before_sep d);
  ok_after : Forall (fun a => Char.is_space a = true) (after_sep d);
  ok_separator : separator d ∈ ["x"%char; "X"%char; Char.times];
}.

Lemma numeral_head n :
  well_formed n → ∃ a l, numeral_chars n = a :: l ∧ Char.is_digit a = true.
Proof.
  intros [Hi Hne _ _]. unfold numeral_chars.
  destruct (int_part n) as [|a ip]; [done|].
  apply Forall_cons in Hi as [Ha _]. by exists a, (ip ++ tail_chars n).
Qed.

Lemma numeral_nonempty n : well_formed n → numeral_chars n ≠ [].
Proof. intros H. by destruct (numeral_head n H) as (a & l & -> & _). Qed.

Lemma ends_numeral_mark b : ends_numeral (mark b).
Proof. by destruct b. Qed.

Lemma ends_numeral_spaces sp x rest :
  Forall (fun a => Char.is_space a = true) sp → is_sep x = true →
  ends_numeral (sp ++ x :: rest).
Proof.
  intros Hsp Hx. destruct Hsp as [|a sp Ha _]; simpl.
  - by apply sep_not_numeric.
  - by apply space_not_numeric.
Qed.

Lemma stops_space_numeral n rest :
  well_formed n → stops true Space (numeral_chars n ++ rest).
Proof.
  intros H. destruct (numeral_head n H) as (a & l & -> & Ha). simpl.
  by apply digit_not_space.
Qed.

Lemma push_same g w m : push (Some g) w m g = m g ++ w.
Proof. simpl. by rewrite Nat.eqb_refl. Qed.

Lemma push_other g g' w m : g' ≠ g → push (Some g) w m g' = m g'.
Proof. intros H. simpl. apply Nat.eqb_neq in H. by rewrite H. Qed.

Lemma push_each_none w m j : push_each None w m j = m j.
Proof. by rewrite push_each_eq. Qed.

(** Reads a group off the captures built along the greedy path. *)
Ltac captured :=
  repeat first
    [ rewrite capture_numeral_eq by done
    | rewrite push_same
    | rewrite push_other by done
    | rewrite push_each_none
    | progress change (push None ?w ?m) with m ];
  reflexivity.

Section Form.
Variable d : dim_text.
Hypothesis Hd : dim_ok d.

(** Without an inch mark after the width, the first pattern matches at
    the start and captures the two numerals. *)
Lemma plain_match :
  width_inch d = false →
  ∃ r, run true (flat dims_plain) (dim_chars d) no_captures = Some r
       ∧ r 1%nat = numeral_chars (width_numeral d)
       ∧ r 2%nat = numeral_chars (height_numeral d).
Proof.
  intros Hq. destruct Hd as [Hw Hh Hb Ha Hs]. apply sep_chars in Hs.
  unfold dim_chars. rewrite Hq. cbn [mark app].
  eexists. split.
  - change (flat dims_plain) with
      (map (fun t => (Some 1%nat, t)) dim_number
         ++ [(None, Star Space); (None, One x_or_times); (None, Star Space)]
         ++ map (fun t => (Some 2%nat, t)) dim_number ++ []).
    apply run_numeral; [done|by apply ends_numeral_spaces|].
    cbn [app]. apply run_star; [done|by apply sep_not_space|].
    rewrite run_one by done.
    apply run_star; [done|by apply stops_space_numeral|].
    apply run_numeral; [done|apply ends_numeral_mark|]. reflexivity.
  - split; captured.
Qed.

(** With an inch mark after the width, the fourth pattern matches at the
    start and captures the two numerals. *)
Lemma inch_match :
  width_inch d = true →
  ∃ r, run true (flat dims_inch) (dim_chars d) no_captures = Some r
       ∧ r 1%nat = numeral_chars (width_numeral d)
       ∧ r 2%nat = numeral_chars (height_numeral d).
Proof.
  intros Hq. destruct Hd as [Hw Hh Hb Ha Hs]. apply sep_chars in Hs.
  unfold dim_chars. rewrite Hq. cbn [mark app].
  assert (∀ m,
            run true [(None, Opt (Lit Char.inch))] (mark (height_inch d)) m
            = Some m) as Hlast.
  { intros m. by destruct (height_inch d). }
  eexists. split.
  - change (flat dims_inch) with
      (map (fun t => (Some 1%nat, t)) dim_number
         ++ [(None, Opt (Lit Char.inch)); (None, Star Space);
             (None, One x_or_times); (None, Star Space)]
         ++ map (fun t => (Some 2%nat, t)) dim_number
         ++ [(None, Opt (Lit Char.inch))]).
    apply run_numeral; [done|done|].
    cbn [app]. apply run_opt_take; [done|].
    apply run_star; [done|by apply sep_not_space|].
    rewrite run_one by done.
    apply run_star; [done|by apply stops_space_numeral|].
    apply run_numeral; [done|apply ends_numeral_mark|]. apply Hlast.
  - split; captured.
Qed.

Lemma dim_chars_plain : Forall (fun a => plain a = true) (dim_chars d).
Proof.
  destruct Hd as [Hw Hh Hb Ha Hs]. apply sep_chars in Hs.
  assert (∀ n, well_formed n → Forall (fun a => plain a = true) (numeral_chars n))
    as Hn.
  { intros n H. eapply Forall_impl; [by apply numeral_numeric|].
    intros a E. unfold plain. by rewrite E. }
  assert (∀ sp, Forall (fun a => Char.is_space a = true) sp →
                Forall (fun a => plain a = true) sp) as Hsp.
  { intros sp H. eapply Forall_impl; [exact H|].
    intros a E. unfold plain. rewrite E. by rewrite !orb_true_r. }
  assert (∀ b, Forall (fun a => plain a = true) (mark b)) as Hm.
  { intros [|]; by repeat constructor. }
  unfold dim_chars. rewrite !Forall_app, Forall_cons, !Forall_app.
  repeat split; auto.
  unfold plain. rewrite Hs. by rewrite !orb_true_r.
Qed.

(** With an inch mark after the width no separator follows a numeral. *)
Lemma dim_chars_clear : width_inch d = true → clear false (dim_chars d) = true.
Proof.
  intros Hq. destruct Hd as [Hw Hh Hb Ha Hs]. apply sep_chars in Hs.
  unfold dim_chars. rewrite Hq.
  rewrite clear_numerals by (by apply numeral_nonempty || by apply numeral_numeric).
  change (mark true ++ before_sep d ++ separator d
            :: after_sep d ++ numeral_chars (height_numeral d)
            ++ mark (height_inch d))
    with (Char.inch :: before_sep d ++ separator d
            :: after_sep d ++ numeral_chars (height_numeral d)
            ++ mark (height_inch d)).
  cbn [clear]. change (is_sep Char.inch) with false.
  change (Char.is_space Char.inch) with false.
  change (numeric Char.inch) with false. cbn iota.
  rewrite clear_spaces by done. cbn [clear]. rewrite Hs. cbn [negb andb].
  rewrite clear_spaces by done.
  rewrite clear_numerals by (by apply numeral_nonempty || by apply numeral_numeric).
  by destruct (height_inch d).
Qed.

Lemma plain_pattern_absent :
  width_inch d = true → search_chars true (flat dims_plain) (dim_chars d) = None.
Proof.
  intros Hq. apply search_chars_none. intros pre ws rest Hp Heq.
  pose proof (dim_chars_clear Hq) as Hclear.
  change (flat dims_plain) with
    [(Some 1%nat, Plus Digit); (Some 1%nat, Opt (Lit "."));
     (Some 1%nat, Star Digit); (None, Star Space); (None, One x_or_times);
     (None, Star Space); (Some 2%nat, Plus Digit); (Some 2%nat, Opt (Lit "."));
     (Some 2%nat, Star Digit)] in Hp.
  apply Forall2_cons_inv_l in Hp as (d1 & ws1 & [Hne1 Hd1] & Hp & ->).
  apply Forall2_cons_inv_l in Hp as (dot & ws2 & Hdot & Hp & ->).
  apply Forall2_cons_inv_l in Hp as (d2 & ws3 & Hd2 & Hp & ->).
  apply Forall2_cons_inv_l in Hp as (sp & ws4 & Hsp & Hp & ->).
  apply Forall2_cons_inv_l in Hp as (xs & ws5 & (x & -> & Hx) & Hp & ->).
  simpl in Hsp, Hd2.
  assert (Forall (fun a => numeric a = true) (d1 ++ dot ++ d2)) as Hnum.
  { rewrite !Forall_app. repeat split.
    - eapply Forall_impl; [exact Hd1|]. intros a E. unfold numeric.
      simpl in E. by rewrite E.
    - destruct Hdot as [->|(a & -> & E)]; [done|].
      constructor; [|done]. simpl in E. apply bool_decide_eq_true in E.
      revert E. each_char a.
    - eapply Forall_impl; [exact Hd2|]. intros a E. unfold numeric.
      simpl in E. by rewrite E. }
  assert (dim_chars d
          = pre ++ (d1 ++ dot ++ d2) ++ sp ++ x :: mjoin ws5 ++ rest) as Hshape.
  { rewrite Heq. simpl. by rewrite <- !app_assoc. }
  rewrite Hshape in Hclear.
  rewrite clear_violation in Hclear; [done|by destruct d1|done|done|done].
Qed.

(** A pattern with a literal [W] has no match in a text of the form. *)
Lemma w_pattern_absent (r : regex) g :
  (g, One (Lit "W")) ∈ flat r → search_chars true (flat r) (dim_chars d) = None.
Proof.
  intros Hin. apply search_chars_none. intros pre ws rest Hp Heq.
  destruct (parses_one_elem true _ _ _ _ Hp Hin) as (a & Ha & Hc).
  pose proof dim_chars_plain as Hpl. rewrite Heq in Hpl.
  rewrite !Forall_app in Hpl. destruct Hpl as (_ & Hpl & _).
  rewrite Forall_forall in Hpl. specialize (Hpl a Ha).
  apply plain_not_w in Hpl. congruence.
Qed.

End Form.

(** The result dict of [extract_dimensions]. *)
Definition dimensions (w h : pyval) : record :=
  <["width" := w]> (<["height" := h]> ∅).

Lemma of_string_numeral n :
  well_formed n →
  PyFloat.of_string (text (numeral_chars n)) = Some (FNum (numeral_value n)).
Proof.
  intros H. unfold PyFloat.of_string. rewrite chars_text.
  by apply of_chars_numeral.
Qed.

Lemma dimensions_loop_match pattern rest l r w h acc :
  search_chars true (flat pattern) l = Some r →
  r 1%nat = numeral_chars w → r 2%nat = numeral_chars h →
  well_formed w → well_formed h →
  extract_dimensions_loop (pattern :: rest) (text l) acc
  = (Some (FNum (numeral_value w)), Some (FNum (numeral_value h))).
Proof.
  intros Hs H1 H2 Hw Hh. simpl. unfold search. rewrite chars_text, Hs.
  by rewrite H1, H2, !of_string_numeral.
Qed.

Lemma dimensions_loop_skip pattern rest l acc :
  search_chars true (flat pattern) l = None →
  extract_dimensions_loop (pattern :: rest) (text l) acc
  = extract_dimensions_loop rest (text l) acc.
Proof. intros Hs. simpl. unfold search. by rewrite chars_text, Hs. Qed.

Lemma dimensions_loop_none patterns txt acc :
  Forall (fun p => search true p txt = None) patterns →
  extract_dimensions_loop patterns txt acc = (acc, None).
Proof.
  induction 1 as [|p patterns Hp _ IH]; [done|]. simpl. by rewrite Hp.
Qed.

(** The text [36" x 48"]. *)
Definition inches_example : dim_text :=
  {| width_numeral := {| int_part := chars "36"; point := false; frac_part := [] |};
     width_inch := true;
     before_sep := chars " ";
     separator := "x"%char;
     after_sep := chars " ";
     height_numeral := {| int_part := chars "48"; point := false; frac_part := [] |};
     height_inch := true |}.

(** C6.  For every text of the form [<w> x <h>] (numerals of digits with
    an optional point and fraction, each optionally followed by an inch
    mark, the separator [x], [X] or the multiplication sign between
    optional spaces) the result holds the two numbers as floats, taken
    from the first pattern that matches; a text that no pattern matches
    gives [None] for both; and [36" x 48"] gives 36.0 and 48.0. *)
Theorem extract_dimensions_form :
  (∀ d, dim_ok d →
     extract_dimensions (text (dim_chars d))
     = dimensions (VFloat (FNum (numeral_value (width_numeral d))))
                  (VFloat (FNum (numeral_value (height_numeral d)))))
  ∧ (∀ txt, Forall (fun p => search true p txt = None) dimension_patterns →
       extract_dimensions txt = dimensions VNone VNone)
  ∧ extract_dimensions (text (dim_chars inches_example))
    = dimensions (VFloat (FNum 36)) (VFloat (FNum 48)).
Proof.
  split; [|split].
  - intros d Hd. unfold extract_dimensions, dimension_patterns.
    destruct (width_inch d) eqn:Hq.
    + rewrite dimensions_loop_skip by by apply plain_pattern_absent.
      rewrite dimensions_loop_skip
        by (apply (w_pattern_absent d Hd dims_labelled None);
            vm_compute; apply list_elem_of_here).
      rewrite dimensions_loop_skip
        by (apply (w_pattern_absent d Hd dims_w_h None);
            vm_compute; do 4 apply list_elem_of_further; apply list_elem_of_here).
      destruct (inch_match d Hd Hq) as (r & Hr & H1 & H2).
      by rewrite (dimensions_loop_match dims_inch [] (dim_chars d) r
                    (width_numeral d) (height_numeral d) None
                    (search_chars_here true _ _ _ Hr) H1 H2
                    (ok_width d Hd) (ok_height d Hd)).
    + destruct (plain_match d Hd Hq) as (r & Hr & H1 & H2).
      by rewrite (dimensions_loop_match dims_plain _ (dim_chars d) r
                    (width_numeral d) (height_numeral d) None
                    (search_chars_here true _ _ _ Hr) H1 H2
                    (ok_width d Hd) (ok_height d Hd)).
  - intros txt H. unfold extract_dimensions.
    by rewrite dimensions_loop_none.
  - vm_compute. reflexivity.
Qed.

Lemma extract_dimensions_form_witness :
  dim_ok inches_example
  ∧ extract_dimensions (text (dim_chars inches_example))
    = dimensions
        (VFloat (FNum (numeral_value (width_numeral inches_example))))
        (VFloat (FNum (numeral_value (height_numeral inches_example)))).
Proof.
  assert (dim_ok inches_example) as Hd.
  { split.
    - split; simpl; [by repeat constructor|done|done|done].
    - split; simpl; [by repeat constructor|done|done|done].
    - by repeat constructor.
    - by repeat constructor.
    - apply list_elem_of_here. }
  split; [exact Hd|].
  exact (proj1 extract_dimensions_form inches_example Hd).
Defined.

(** Texts of the other supported shapes, and one of no supported shape. *)
Example extract_dimensions_shapes :
  extract_dimensions "Width: 36 in, Height: 48.5 in"
  = dimensions (VFloat (FNum 36)) (VFloat (FNum (Qred 48.5)))
  ∧ extract_dimensions "36 W x 48 H" = dimensions (VFloat (FNum 36)) (VFloat (FNum 48))
  ∧ extract_dimensions "36in x 48in" = dimensions VNone VNone.
Proof. repeat split; vm_compute; reflexivity. Qed.

(** * Further properties of the code *)

(** ** Normalisation: which fields survive, and from which alias *)

(** The standard fields, the keys of [field_mapping]. *)
Definition standard_fields : list string := field_mapping.*1.

Lemma remap_standard r k : is_Some (remap r !! k) → k ∈ standard_fields.
Proof.
  rewrite remap_lookup. destruct (aliases_of k) as [al|] eqn:E.
  - intros _. unfold aliases_of in E. apply elem_of_list_to_map_2 in E.
    unfold standard_fields. apply list_elem_of_fmap. by exists (k, al).
  - by intros [? ?].
Qed.

Lemma normalize_lookup_ne r k :
  k ≠ "price" → normalize_product_data r !! k = remap r !! k.
Proof.
  intros Hk. unfold normalize_product_data.
  destruct (remap r !! "price") as [[]|]; try done.
  by rewrite lookup_insert_ne.
Qed.

Lemma normalize_lookup_price r :
  normalize_product_data r !! "price"
  = match remap r !! "price" with
    | Some (VStr s) => Some (opt_float (extract_price s))
    | o => o
    end.
Proof.
  unfold normalize_product_data.
  destruct (remap r !! "price") as [[]|] eqn:E; try done.
  by rewrite lookup_insert_eq.
Qed.

(** The normalised record has standard fields only: every other key of
    the input, such as [supplier], [details] or [specifications], is
    dropped. *)
Theorem normalize_only_standard_fields r k :
  k ∉ standard_fields → normalize_product_data r !! k = None.
Proof.
  intros Hk. destruct (decide (k = "price")) as [->|Hne].
  - exfalso. apply Hk. apply (bool_decide_unpack ("price" ∈ standard_fields)).
    by vm_compute.
  - rewrite normalize_lookup_ne by done.
    destruct (remap r !! k) eqn:E; [|done].
    exfalso. apply Hk, (remap_standard r). by rewrite E.
Qed.

Lemma normalize_only_standard_fields_witness :
  ("supplier" ∉ standard_fields)
  ∧ normalize_product_data canonical_example !! "supplier" = None.
Proof.
  assert ("supplier" ∉ standard_fields) as H.
  { apply (bool_decide_unpack ("supplier" ∉ standard_fields)). by vm_compute. }
  split; [exact H|].
  exact (normalize_only_standard_fields canonical_example "supplier" H).
Defined.

(** [first_present], said without the loop: the value of the first alias,
    in list order, that is present and not [None]. *)
Lemma first_present_Some r al v :
  first_present r al = Some v ↔
  ∃ pre a post, al = pre ++ a :: post
                ∧ Forall (missing r) pre
                ∧ r !! a = Some v ∧ v ≠ VNone.
Proof.
  induction al as [|b al IH]; simpl.
  - split; [done|]. intros (pre & a & post & H & _). by destruct pre.
  - destruct (has_field r b) eqn:E.
    + apply has_field_true in E as (w & Hw & Hn). split.
      * intros Hv. exists [], b, al. split; [done|]. split; [done|].
        split; [done|]. congruence.
      * intros (pre & a & post & Hal & Hpre & Ha & Hv).
        destruct pre as [|b' pre]; simpl in Hal; injection Hal as <- ->.
        -- done.
        -- apply Forall_cons in Hpre as [[Hm|Hm] _]; congruence.
    + apply has_field_false in E. rewrite IH. split.
      * intros (pre & a & post & -> & Hpre & Ha & Hv).
        exists (b :: pre), a, post. split; [done|]. split; [|done].
        by constructor.
      * intros (pre & a & post & Hal & Hpre & Ha & Hv).
        destruct pre as [|b' pre]; simpl in Hal; injection Hal as <- ->.
        -- destruct E; congruence.
        -- apply Forall_cons in Hpre as [_ Hpre]. by exists pre, a, post.
Qed.

(** Alias priority.  A standard field other than [price] gets the value
    of the first of its aliases, in the order of [field_mapping], that is
    present in the input and not [None]. *)
Theorem normalize_alias_priority r field aliases v :
  (field, aliases) ∈ field_mapping → field ≠ "price" →
  (normalize_product_data r !! field = Some v ↔
   ∃ pre a post, aliases = pre ++ a :: post
                 ∧ Forall (missing r) pre
                 ∧ r !! a = Some v ∧ v ≠ VNone).
Proof.
  intros Hin Hne. rewrite normalize_lookup_ne, remap_lookup by done.
  assert (aliases_of field = Some aliases) as ->.
  { unfold aliases_of. apply elem_of_list_to_map_1; [|done].
    apply (bool_decide_unpack (NoDup (field_mapping.*1))). by vm_compute. }
  apply first_present_Some.
Qed.

Definition aliased_example : record :=
  list_to_map [("type", VStr "doors"); ("product_type", VStr "windows");
               ("frame_material", VStr "oak"); ("material", VNone)].

Lemma normalize_alias_priority_witness :
  normalize_product_data aliased_example !! "product_type" = Some (VStr "doors")
  ∧ normalize_product_data aliased_example !! "material" = Some (VStr "oak").
Proof.
  split.
  - apply (normalize_alias_priority aliased_example "product_type"
             ["type"; "product_type"; "category"]);
      [by apply (bool_decide_unpack (_ ∈ _)); vm_compute|done|].
    exists [], "type", ["product_type"; "category"]. by vm_compute.
  - apply (normalize_alias_priority aliased_example "material"
             ["material"; "frame_material"; "construction"]);
      [by apply (bool_decide_unpack (_ ∈ _)); vm_compute|done|].
    exists ["material"], "frame_material", ["construction"].
    split; [done|]. split; [|by vm_compute].
    constructor; [|done]. right. by vm_compute.
Defined.

(** The normalised price is never a string: a string price is replaced
    by what [extract_price] makes of it, a float or [None]. *)
Theorem normalize_price_not_string r s :
  normalize_product_data r !! "price" ≠ Some (VStr s).
Proof.
  rewrite normalize_lookup_price.
  destruct (remap r !! "price") as [[| | | |s'|]|] eqn:E; try done.
  by destruct (extract_price s').
Qed.

(** A string price that [extract_price] cannot read stays in the record
    as [None], and validation then rejects the record. *)
Theorem normalize_unreadable_price r s :
  r !! "price" = Some (VStr s) → extract_price s = None →
  normalize_product_data r !! "price" = Some VNone
  ∧ validate_product_data (normalize_product_data r) = false.
Proof.
  intros Hp He.
  assert (normalize_product_data r !! "price" = Some VNone) as Hn.
  { rewrite normalize_lookup_price, remap_lookup.
    change (aliases_of "price") with (Some ["price"; "cost"; "total_price"; "amount"]).
    simpl. unfold has_field. rewrite Hp. simpl. by rewrite He. }
  split; [done|].
  destruct (validate_product_data (normalize_product_data r)) eqn:E; [|done].
  apply validate_true in E as (_ & p & Hp' & Hnone & _). congruence.
Qed.

Lemma normalize_unreadable_price_witness :
  normalize_product_data invalid_price_example !! "price" = Some VNone
  ∧ validate_product_data (normalize_product_data invalid_price_example) = false.
Proof.
  apply (normalize_unreadable_price invalid_price_example "not-a-number");
    by vm_compute.
Defined.

(** ** The matcher finds every match *)

Section MatcherComplete.
Variable ic : bool.

Lemma many_falls_back c g k s m :
  is_Some (k s m) → is_Some (many ic c g k s m).
Proof.
  intros Hk. destruct s as [|a s]; simpl; [done|].
  destruct (cls_match ic c a); [|done].
  by destruct (many ic c g k s (push g [a] m)).
Qed.

Lemma many_complete c g k w rest :
  Forall (fun a => cls_match ic c a = true) w →
  (∀ m, is_Some (k rest m)) → ∀ m, is_Some (many ic c g k (w ++ rest) m).
Proof.
  intros Hw Hk. induction Hw as [|a w Ha _ IH]; intros m.
  - by apply many_falls_back.
  - simpl. rewrite Ha. destruct (IH (push g [a] m)) as [r ->]. by eexists.
Qed.

(** Wherever the tokens can be given pieces of the text they accept, the
    matcher succeeds. *)
Lemma run_complete p ws rest :
  parses ic p ws → ∀ m, is_Some (run ic p (mjoin ws ++ rest) m).
Proof.
  intros Hp. induction Hp as [|[g t] w p ws Ht _ IH]; intros m; [by eexists|].
  simpl in Ht. destruct t as [c|c|c|c]; simpl.
  - destruct Ht as (a & -> & Ha). simpl. rewrite Ha. apply IH.
  - destruct Ht as [->|(a & -> & Ha)]; simpl.
    + destruct (single ic c g (run ic p) (mjoin ws ++ rest) m); [by eexists|].
      apply IH.
    + rewrite Ha. destruct (IH (push g [a] m)) as [r ->]. by eexists.
  - rewrite <- app_assoc. by apply many_complete.
  - destruct Ht as [Hne Hw]. destruct w as [|a w]; [done|].
    apply Forall_cons in Hw as [Ha Hw]. simpl. rewrite Ha.
    rewrite <- app_assoc. by apply many_complete.
Qed.

Lemma search_chars_complete p pre ws rest :
  parses ic p ws → is_Some (search_chars ic p (pre ++ mjoin ws ++ rest)).
Proof.
  intros Hp. induction pre as [|a pre IH]; simpl.
  - destruct (run_complete p ws rest Hp no_captures) as [r Hr].
    destruct (mjoin ws ++ rest); simpl; rewrite Hr; by eexists.
  - destruct (run ic p (a :: pre ++ mjoin ws ++ rest) no_captures);
      [by eexists|exact IH].
Qed.

Lemma tagged_parses g ts ws :
  Forall2 (tok_accepts ic) ts ws → parses ic (map (fun t => (Some g, t)) ts) ws.
Proof. induction 1; constructor; auto. Qed.

End MatcherComplete.

(** ** Price extraction: only the first pattern ever decides *)

(** The first price pattern. *)
Definition price_first : regex := [T (Opt (Lit "$")); G 1 price_number].

(** Where any of the price patterns has a match, the first has one. *)
Lemma price_first_matches pattern s :
  price_shaped pattern →
  is_Some (search false pattern s) → is_Some (search false price_first s).
Proof.
  intros (pre & post & Hpre & Hpost & Hflat). unfold search.
  destruct (search_chars false (flat pattern) (chars s)) as [r|] eqn:E;
    [intros _|by intros [? ?]].
  apply search_chars_sound in E as (skip & ws & rest & Hp & Hs & _).
  rewrite Hflat in Hp.
  destruct (parses_group false pre price_number post 1 ws Hpre Hpost Hp)
    as (ws1 & wsg & ws2 & -> & Hg & _).
  assert (parses false (flat price_first) ([] :: wsg)) as Hfirst.
  { constructor; [by left|]. change (flat [G 1 price_number])
      with (map (fun t => (Some 1%nat, t)) price_number ++ []).
    rewrite app_nil_r. by apply tagged_parses. }
  pose proof (search_chars_complete false (flat price_first)
                (skip ++ mjoin ws1) ([] :: wsg) (mjoin ws2 ++ rest) Hfirst) as Hc.
  replace (chars s) with
    ((skip ++ mjoin ws1) ++ mjoin ([] :: wsg) ++ mjoin ws2 ++ rest).
  - destruct Hc as [r' ->]. by eexists.
  - rewrite Hs. simpl. rewrite !join_app. by rewrite <- !app_assoc.
Qed.

(** The trailing-dollar, [Price:] and [Cost:] patterns are never the ones
    that decide: [extract_price] is the loop over the first pattern
    alone. *)
Theorem extract_price_first_pattern_only txt :
  extract_price txt
  = if String.eqb txt "" then None
    else extract_price_loop [price_first] (remove_commas txt).
Proof.
  unfold extract_price. destruct (String.eqb txt ""); [done|].
  pose proof (remove_commas_free txt) as Hfree.
  pose proof price_patterns_shaped as Hshape.
  change price_patterns with (price_first :: tail price_patterns) in *.
  apply Forall_cons in Hshape as [H1 Hrest].
  cbn [extract_price_loop].
  destruct (search false price_first (remove_commas txt)) as [m|] eqn:E.
  - destruct (price_match_numeral _ _ m H1 Hfree E) as (n & Hwf & Hm).
    rewrite Hm, remove_commas_id.
    + by rewrite of_string_numeral.
    + eapply Forall_impl; [by apply numeral_numeric|].
      intros a Ha ->. by vm_compute in Ha.
  - assert (∀ patterns, Forall price_shaped patterns →
              extract_price_loop patterns (remove_commas txt) = None) as Hnone.
    { induction 1 as [|p ps Hp _ IH]; [done|]. simpl.
      destruct (search false p (remove_commas txt)) as [m|] eqn:Ep; [|done].
      destruct (price_first_matches p (remove_commas txt) Hp) as [m' Hm'];
        [by eexists|congruence]. }
    by rewrite Hnone.
Qed.

(** ** Price extraction: what the result can be *)











Example extract_price_one_digit : extract_price "$5" = None.
Proof. vm_compute. reflexivity. Qed.

(** ** Price extraction: a price with cents is read back *)

Lemma digit_not_dollar a : Char.is_digit a = true → a ≠ "$"%char.
Proof. intros H ->. by vm_compute in H. Qed.

Lemma point_not_digit : Char.is_digit "."%char = false.
Proof. reflexivity. Qed.

(** The tokens of the price number take a numeral that has a point and
    fraction digits, when what follows is neither a digit nor a point. *)
Lemma run_price_number n p rest m r :
  well_formed n → point n = true → frac_part n ≠ [] → ends_numeral rest →
  run false p rest
    (push_each (Some 1%nat) (frac_part n)
       (push (Some 1%nat) ["."%char]
          (push_each (Some 1%nat) [] (push_each (Some 1%nat) (int_part n) m))))
  = Some r →
  run false (map (fun t => (Some 1%nat, t)) price_number ++ p)
    (numeral_chars n ++ rest) m = Some r.
Proof.
  intros Hwf Hpt Hfr Hend Hr. unfold price_number, numeral_chars, tail_chars.
  rewrite Hpt. cbn [map app]. rewrite <- app_assoc.
  apply run_plus;
    [apply (wf_int_nonempty n Hwf)|apply digits_match, (wf_int n Hwf)|done|].
  rewrite run_opt_skip by done.
  apply (run_star false (Some 1%nat) Digit _ [] ); [done|done|].
  cbn [app]. apply run_opt_take; [done|].
  apply run_plus; [done|apply digits_match, (wf_frac n Hwf)
                  |by apply ends_stops_digit|done].
Qed.

(** The first price pattern at a character that is not a digit: only a
    dollar sign lets the match go on. *)
Lemma run_price_first_nondigit a s m :
  Char.is_digit a = false →
  run false (flat price_first) (a :: s) m
  = if bool_decide (a = "$"%char)
    then run false (map (fun t => (Some 1%nat, t)) price_number) s m
    else None.
Proof.
  intros Ha.
  change (flat price_first)
    with ((None, Opt (Lit "$")) :: map (fun t => (Some 1%nat, t)) price_number).
  cbn [run single]. cbn [cls_match].
  assert (run false (map (fun t => (Some 1%nat, t)) price_number) (a :: s) m = None)
    as Hfall.
  { unfold price_number. cbn [map run single cls_match]. by rewrite Ha. }
  rewrite Hfall. case_bool_decide; [|done].
  change (push None [a] m) with m.
  by destruct (run false _ s m).
Qed.

Section Cents.
Variable n : numeral.
Hypothesis Hwf : well_formed n.
Hypothesis Hpt : point n = true.
Hypothesis Hfr : frac_part n ≠ [].
Variable suffix : list ascii.
Hypothesis Hsuffix : Forall (fun a => numeric a = false) suffix.

Lemma suffix_ends : ends_numeral suffix.
Proof. destruct Hsuffix; [done|]. done. Qed.

Lemma price_number_here m :
  ∃ r, run false (map (fun t => (Some 1%nat, t)) price_number)
         (numeral_chars n ++ suffix) m = Some r
       ∧ r 1%nat = m 1%nat ++ numeral_chars n.
Proof.
  eexists. split.
  - rewrite <- (app_nil_r (map _ price_number)).
    apply run_price_number; [done|done|done|apply suffix_ends|reflexivity].
  - rewrite push_each_eq, push_same. rewrite push_same.
    cbn [push_each]. rewrite push_each_eq, push_same.
    unfold numeral_chars, tail_chars. rewrite Hpt.
    by rewrite <- !app_assoc.
Qed.

(** After a prefix without digits the leftmost match is the numeral. *)
Lemma price_first_search prefix :
  Forall (fun a => Char.is_digit a = false) prefix →
  ∃ r, search_chars false (flat price_first)
         (prefix ++ numeral_chars n ++ suffix) = Some r
       ∧ r 1%nat = numeral_chars n.
Proof.
  intros Hpre. induction Hpre as [|a prefix Ha Hpre IH].
  - destruct (numeral_head n Hwf) as (a & l & Hnum & Ha).
    destruct (price_number_here no_captures) as (r & Hr & Hr1).
    exists r. split; [|done]. apply search_chars_here.
    change (flat price_first)
      with ((None, Opt (Lit "$")) :: map (fun t => (Some 1%nat, t)) price_number).
    rewrite run_opt_skip; [done|].
    cbn [app]. rewrite Hnum. simpl. apply bool_decide_eq_false.
    by apply digit_not_dollar.
  - cbn [app search_chars]. rewrite run_price_first_nondigit by done.
    case_bool_decide as Hdollar; [|exact IH].
    destruct Hpre as [|b prefix Hb Hpre].
    + destruct (price_number_here no_captures) as (r & Hr & Hr1).
      cbn [app]. rewrite Hr. by exists r.
    + assert (run false (map (fun t => (Some 1%nat, t)) price_number)
                ((b :: prefix) ++ numeral_chars n ++ suffix) no_captures = None)
        as ->; [|exact IH].
      unfold price_number. cbn [app map run single cls_match]. by rewrite Hb.
Qed.

End Cents.

Lemma filter_commas_app l1 l2 :
  filter (fun a => a ≠ ","%char) (l1 ++ l2)
  = filter (fun a => a ≠ ","%char) l1 ++ filter (fun a => a ≠ ","%char) l2.
Proof. apply filter_app. Qed.

Lemma filter_commas_numeral n :
  well_formed n →
  filter (fun a => a ≠ ","%char) (numeral_chars n) = numeral_chars n.
Proof.
  intros Hwf. pose proof (numeral_numeric n Hwf) as H.
  induction H as [|a l Ha _ IH]; [done|].
  rewrite filter_cons_True; [by rewrite IH|].
  intros ->. by vm_compute in Ha.
Qed.

Lemma Forall_filter_commas (P : ascii → Prop) l :
  Forall P l → Forall P (filter (fun a => a ≠ ","%char) l).
Proof.
  intros H. apply Forall_forall. intros a Ha.
  apply list_elem_of_filter in Ha as [_ Ha].
  rewrite Forall_forall in H. by apply H.
Qed.

(** A price written with a point and cents is read back exactly: around
    it the text may hold anything without digits in front (a label, a
    dollar sign) and anything without digits or points behind. *)
Theorem extract_price_reads_cents (prefix suffix : list ascii) (n : numeral) :
  well_formed n → point n = true → frac_part n ≠ [] →
  Forall (fun a => Char.is_digit a = false) prefix →
  Forall (fun a => numeric a = false) suffix →
  extract_price (text (prefix ++ numeral_chars n ++ suffix))
  = Some (FNum (numeral_value n)).
Proof.
  intros Hwf Hpt Hfr Hpre Hsuf.
  rewrite extract_price_first_pattern_only.
  destruct (String.eqb _ "") eqn:E.
  { apply String.eqb_eq in E. apply (f_equal chars) in E.
    rewrite chars_text in E. destruct prefix; simpl in E; [|done].
    destruct (numeral_head n Hwf) as (a & l & Hn & _). by rewrite Hn in E. }
  cbn [extract_price_loop]. unfold search, remove_commas.
  rewrite !chars_text, !filter_commas_app, filter_commas_numeral by done.
  destruct (price_first_search n Hwf Hpt Hfr
              (filter (fun a => a ≠ ","%char) suffix)
              (Forall_filter_commas _ _ Hsuf)
              (filter (fun a => a ≠ ","%char) prefix)
              (Forall_filter_commas _ _ Hpre)) as (r & -> & ->).
  rewrite ?chars_text, filter_commas_numeral by done.
  by rewrite of_string_numeral.
Qed.

Definition cents_example : numeral :=
  {| int_part := chars "1234"; point := true; frac_part := chars "50" |}.

Lemma extract_price_reads_cents_witness :
  extract_price (text (chars "Total, as quoted: $" ++ numeral_chars cents_example
                         ++ chars " per unit"))
  = Some (FNum (numeral_value cents_example)).
Proof.
  apply extract_price_reads_cents.
  - split; simpl; [by repeat constructor|done|by repeat constructor|done].
  - reflexivity.
  - discriminate.
  - by repeat constructor.
  - by repeat constructor.
Defined.

(** ** The orchestrator: what a run does to the two lists *)

Lemma bind_ok {S A B} (c : comp S A) (k : A → comp S B) s a s1 :
  c s = (Ok a, s1) → (c ≫= k) s = k a s1.
Proof. intros H. unfold mbind, comp_bind. by rewrite H. Qed.

Lemma bind_raise {S A B} (c : comp S A) (k : A → comp S B) s e s1 :
  c s = (Raise e, s1) → (c ≫= k) s = (Raise e, s1).
Proof. intros H. unfold mbind, comp_bind. by rewrite H. Qed.

Section Accounting.
Context {browser : Type}.
Variable sup : strategy browser.












End Accounting.



(** ** The orchestrator: the session is always released *)

(** However the run goes (a fault while the browser starts, a failed
    login, a fault in the loop, even a fault of the final screenshot), the
    last thing done to the browser session is [cleanup]. *)
Theorem scrape_all_products_releases {browser : Type}
    (sup : strategy browser) (s : scraper browser) :
  ∃ b, session (scrape_all_products sup s).2 = cleanup sup b.
Proof.
  unfold scrape_all_products, finally, mbind, comp_bind.
  destruct (try_except _ _ s) as [[early|e] s1]; simpl.
  - exists (session s1). by destruct early.
  - by exists (session s1).
Qed.

(** A failed login ends the run at once: the result is the empty list
    (not the success list collected so far), no configuration is tried
    and both lists stay as they were. *)
Theorem scrape_all_products_login_fails {browser : Type}
    (sup : strategy browser) (s : scraper browser) b1 b2 :
  setup sup (session s) = (Ok tt, b1) →
  login sup b1 = (Ok false, b2) →
  scrape_all_products sup s
  = (Ok [], with_session (cleanup sup b2) s).
Proof.
  intros Hsetup Hlogin.
  assert (scrape_all_try sup s = (Ok (Some []), with_session b2 s)) as Htry.
  { unfold scrape_all_try.
    rewrite (bind_ok (on_session (setup sup)) _ s tt (with_session b1 s))
      by (unfold on_session; by rewrite Hsetup).
    by rewrite (bind_ok (on_session (login sup)) _ _ false (with_session b2 s))
      by (unfold on_session; simpl; by rewrite Hlogin). }
  unfold scrape_all_products.
  by rewrite (bind_ok _ _ s (Some []) (with_session (cleanup sup b2) s))
    by (unfold finally, try_except; by rewrite Htry).
Qed.

(** A supplier behind a login that is refused. *)
Definition locked_supplier : strategy nat :=
  {| supplier_name := "Supplier_2";
     setup := fun b => (Ok tt, b);
     cleanup := fun b => 0%nat;
     login := fun b => (Ok false, S b);
     get_product_configurations := [window_config];
     configure_product := fun _ b => (Ok true, b);
     extract_product_data := fun b => (Ok None, b);
     take_screenshot := fun _ b => (Ok tt, b) |}.

Lemma scrape_all_products_login_fails_witness :
  scrape_all_products locked_supplier fresh_scraper
  = (Ok [], with_session (cleanup locked_supplier 1%nat) fresh_scraper).
Proof.
  apply (scrape_all_products_login_fails locked_supplier fresh_scraper 0%nat 1%nat);
    reflexivity.
Defined.

(** ** The pipeline: where the fields of a result come from *)

Section PipelineResult.
Context {browser : Type}.
Variable sup : strategy browser.

(** A result is the normalised merge of an extracted record, the
    configuration and the supplier name. *)
Definition merged (config : record) (o : option record) : Prop :=
  ∀ r, o = Some r →
    ∃ product_data,
      r = normalize_product_data
            (<["supplier" := VStr (supplier_name sup)]> (update product_data config))
      ∧ validate_product_data r = true.

Lemma pipeline_merged config : appends (pipeline sup config) (merged config).
Proof.
  unfold pipeline.
  eapply appends_bind; [apply appends_note|]. intros _ _.
  eapply appends_bind; [apply appends_on_session|]. intros configured _.
  destruct configured; simpl; [|by apply appends_ret].
  eapply appends_bind; [apply appends_get|]. intros d _.
  eapply appends_bind; [apply appends_note|]. intros _ _.
  eapply appends_bind; [apply appends_on_session|]. intros [pd|] _;
    [|by apply appends_ret].
  destruct (dict_truthy pd); simpl; [|by apply appends_ret].
  match goal with
  | |- context [validate_product_data ?n] =>
      destruct (validate_product_data n) eqn:Hv
  end; [|by apply appends_ret].
  apply appends_ret. intros r [= <-]. by exists pd.
Qed.

Lemma scrape_single_product_merged config s :
  merged config
    (match (scrape_single_product sup config s).1 with
     | Ok o => o
     | Raise _ => None
     end).
Proof.
  assert (appends (scrape_single_product sup config) (merged config)) as H.
  { apply appends_retry_loop, appends_try_except; [apply pipeline_merged|].
    intros e.
    eapply appends_bind; [apply appends_get|]. intros failed _.
    eapply appends_bind; [apply appends_on_session|]. intros _ _.
    by apply appends_ret. }
  destruct (H s) as (_ & _ & _ & Hr).
  destruct (scrape_single_product sup config s).1; [done|by intros r].
Qed.

End PipelineResult.

(** The fields that a standard field of the same name reads first. *)
Definition own_fields : list string :=
  ["price"; "width"; "height"; "material"; "color"; "brand"; "model"; "features"].

Lemma own_field_first field :
  field ∈ own_fields → ∃ rest, aliases_of field = Some (field :: rest).
Proof.
  intros H. repeat (apply elem_of_cons in H as [->|H]; [by eexists|]).
  by apply elem_of_nil in H.
Qed.

(** The configuration wins over the page.  In a record returned for a
    configuration, a width, height, material or colour (and brand, model
    or features) that the configuration gives is the value of that field,
    whatever the page showed; and the record has no [supplier] field. *)
Theorem configuration_fields_win {browser : Type} (sup : strategy browser)
    (config : record) (s : scraper browser) (r : record) field v :
  (scrape_single_product sup config s).1 = Ok (Some r) →
  field ∈ own_fields → field ≠ "price" →
  config !! field = Some v → v ≠ VNone →
  r !! field = Some v ∧ r !! "supplier" = None.
Proof.
  intros Hres Hfield Hne Hv Hnone.
  pose proof (scrape_single_product_merged sup config s) as Hm.
  rewrite Hres in Hm. destruct (Hm r eq_refl) as (pd & -> & _). split.
  - rewrite normalize_lookup_ne, remap_lookup by done.
    destruct (own_field_first field Hfield) as [rest ->]. simpl.
    assert (<["supplier" := VStr (supplier_name sup)]> (update pd config) !! field
            = Some v) as Hl.
    { rewrite lookup_insert_ne.
      - unfold update. by apply lookup_union_Some_l.
      - intros <-. revert Hfield. unfold own_fields.
        rewrite !elem_of_cons, elem_of_nil. intros H. by decompose [or] H. }
    unfold has_field. rewrite Hl. by destruct v.
  - rewrite normalize_lookup_ne by done. rewrite remap_lookup. reflexivity.
Qed.

Lemma configuration_fields_win_witness :
  window_record !! "width" = Some (VInt 30)
  ∧ window_record !! "supplier" = None.
Proof.
  apply (configuration_fields_win (demo_supplier steady) window_config
           fresh_scraper window_record "width" (VInt 30)).
  - vm_compute. reflexivity.
  - apply (bool_decide_unpack ("width" ∈ own_fields)). by vm_compute.
  - discriminate.
  - vm_compute. reflexivity.
  - discriminate.
Defined.

(** ** [get_summary] *)

Record run_summary := {
  summary_supplier : string;
  total_scraped : nat;
  total_failed : nat;
  success_rate : Q;
  failed_configurations : list record;
}.

Definition get_summary {browser : Type} (sup : strategy browser)
    (s : scraper browser) : run_summary :=
  let scraped := length (scraped_data s) in
  let failed := length (failed_items s) in
  {| summary_supplier := supplier_name sup;
     total_scraped := scraped;
     total_failed := failed;
     success_rate :=
       if (0 <? scraped + failed)%nat
       then (inject_Z (Z.of_nat scraped) / inject_Z (Z.of_nat (scraped + failed))
             * 100)%Q
       else 0;
     failed_configurations := failed_items s |}.

Lemma rate_bounds (n m : nat) :
  (0 < n + m)%nat →
  let rate := (inject_Z (Z.of_nat n) / inject_Z (Z.of_nat (n + m)) * 100)%Q in
  (0 <= rate)%Q ∧ (rate <= 100)%Q ∧ ((rate == 100)%Q ↔ m = 0%nat).
Proof.
  intros Hpos. simpl.
  destruct (n + m)%nat as [|k] eqn:E; [lia|].
  unfold Qdiv, Qinv, Qmult, Qle, Qeq. simpl.
  rewrite !Z.mul_1_r, ?Pos.mul_1_r.
  repeat split; try lia.
Qed.

(** The success rate is a percentage: it lies between 0 and 100, it is 0
    when nothing was tried (there is no division by zero), and it is 100
    exactly when something was scraped and nothing failed. *)
Theorem get_summary_rate {browser : Type} (sup : strategy browser)
    (s : scraper browser) :
  let r := get_summary sup s in
  (0 <= success_rate r)%Q ∧ (success_rate r <= 100)%Q
  ∧ ((total_scraped r + total_failed r)%nat = 0%nat → (success_rate r == 0)%Q)
  ∧ ((success_rate r == 100)%Q
     ↔ (0 < total_scraped r)%nat ∧ total_failed r = 0%nat).
Proof.
  simpl. set (n := length (scraped_data s)). set (m := length (failed_items s)).
  destruct (0 <? n + m)%nat eqn:E.
  - apply Nat.ltb_lt in E. destruct (rate_bounds n m E) as (H1 & H2 & H3).
    split; [done|]. split; [done|]. split; [lia|].
    rewrite H3. lia.
  - apply Nat.ltb_ge in E. split; [done|]. split; [done|]. split; [done|].
    split; [done|lia].
Qed.

(** ** [get_product_configurations] of the three suppliers *)

Definition dimension_dict (width height : Z) : list (string * pyval) :=
  [("width", VInt width); ("height", VInt height)].

(** The dict built in the innermost loop; [extra] holds the key that only
    suppliers 2 and 3 add. *)
Definition make_config (product_type : string) (dimension : list (string * pyval))
    (material color : string) (extra : list (string * pyval)) : record :=
  list_to_map
    ([("product_type", VStr product_type)] ++ dimension
       ++ [("material", VStr material); ("color", VStr color)] ++ extra).

Definition supplier1_get_product_configurations : list record :=
  take 50
    (product_type ← ["windows"; "doors"];
     dimension ← [dimension_dict 24 36; dimension_dict 30 48;
                  dimension_dict 36 60; dimension_dict 48 72];
     material ← ["vinyl"; "wood"; "aluminum"; "fiberglass"];
     color ← ["white"; "brown"; "black"; "bronze"];
     [make_config product_type dimension material color []]).

Definition supplier2_get_product_configurations : list record :=
  take 40
    (product_type ← ["windows"; "doors"];
     dimension ← [dimension_dict 30 42; dimension_dict 36 48;
                  dimension_dict 42 54; dimension_dict 48 60];
     material ← ["vinyl"; "aluminum"; "wood"; "composite"];
     color ← ["white"; "bronze"; "black"; "gray"];
     glass_type ← ["single"; "double"; "triple"];
     [make_config product_type dimension material color
        [("glass_type", VStr glass_type)]]).

Definition supplier3_get_product_configurations : list record :=
  take 35
    (product_type ← ["windows"; "doors"];
     dimension ← [dimension_dict 32 40; dimension_dict 36 46;
                  dimension_dict 40 52; dimension_dict 44 58];
     material ← ["vinyl"; "aluminum"; "wood"; "fiberglass"];
     color ← ["white"; "beige"; "brown"; "black"];
     upgrades ← [[]; ["low-e-glass"]; ["security-locks"];
                 ["low-e-glass"; "security-locks"]; ["weatherstripping"]];
     [make_config product_type dimension material color
        [("upgrades", VList (VStr <$> upgrades))]]).

Definition is_windows (config : record) : bool :=
  match config !! "product_type" with
  | Some (VStr s) => String.eqb s "windows"
  | _ => false
  end.

(** The limit cuts the list inside the first product type: the suppliers
    yield 50, 40 and 35 configurations, every one of them for windows; the
    configurations for doors are built and then cut off. *)
Theorem configurations_are_windows_only :
  length supplier1_get_product_configurations = 50%nat
  ∧ length supplier2_get_product_configurations = 40%nat
  ∧ length supplier3_get_product_configurations = 35%nat
  ∧ forallb is_windows
      (supplier1_get_product_configurations
         ++ supplier2_get_product_configurations
         ++ supplier3_get_product_configurations) = true.
Proof. repeat split; vm_compute; reflexivity. Qed.

(** ** Supplier 1: when extraction succeeds *)

Section Supplier1Result.
Context {browser element : Type}.
Variable drv : driver browser element.

Lemma store_text_price key dims t product_data :
  key ≠ "price" →
  store_text key dims t product_data !! "price" = product_data !! "price".
Proof.
  intros Hk. unfold store_text. destruct t as [s|]; [|done].
  destruct (String.eqb s ""); [done|]. destruct dims.
  - unfold update, extract_dimensions.
    destruct (extract_dimensions_loop _ _ _) as [w h].
    rewrite lookup_union_r by (rewrite lookup_insert_ne by done;
                               by rewrite lookup_insert_ne).
    by rewrite lookup_insert_ne.
  - by rewrite lookup_insert_ne.
Qed.

(** [extract_product_data] of supplier 1 returns a record exactly when
    the price region has a text from which [extract_price] reads a number
    that is not zero; that number is the record's price. *)
Theorem supplier1_extracts_iff (b : browser) (f : pyfloat) :
  (∃ product_data,
     (supplier1_extract_product_data drv b).1 = Some product_data
     ∧ product_data !! "price" = Some (VFloat f))
  ↔ (∃ t, (get_element_text drv Supplier1.price_display b).1 = Some t
          ∧ extract_price t = Some f ∧ float_truthy f = true).
Proof.
  unfold supplier1_extract_product_data, guarded.
  unfold mbind, comp_bind, total.
  destruct (get_element_text drv Supplier1.price_display b) as [price_text b1].
  destruct (get_element_text drv Supplier1.product_details b1) as [d b2].
  destruct (get_element_text drv Supplier1.specifications b2) as [sp b3].
  simpl. unfold finish, no_price.
  rewrite !store_text_price by done.
  destruct price_text as [t|]; simpl.
  - destruct (String.eqb t "") eqn:Et; simpl.
    + rewrite lookup_empty. simpl. split.
      * by intros (pd & [=] & _).
      * intros (t' & [= <-] & He & _). apply String.eqb_eq in Et as ->.
        by vm_compute in He.
    + rewrite lookup_insert_eq.
      destruct (extract_price t) as [f'|] eqn:He; simpl.
      * destruct (float_truthy f') eqn:Hf; simpl.
        -- split.
           ++ intros (pd & [= <-] & Hp).
              rewrite !store_text_price, lookup_insert_eq in Hp by done.
              injection Hp as <-. by exists t.
           ++ intros (t' & [= <-] & He' & _). rewrite He in He'.
              injection He' as <-. eexists. split; [done|].
              by rewrite !store_text_price, lookup_insert_eq.
        -- split; [by intros (pd & [=] & _)|].
           intros (t' & [= <-] & He' & Ht). congruence.
      * split; [by intros (pd & [=] & _)|].
        intros (t' & [= <-] & He' & _). congruence.
  - rewrite lookup_empty. simpl. split.
    + by intros (pd & [=] & _).
    + by intros (t' & [=] & _).
Qed.

End Supplier1Result.

(** ** [clean_text] *)

Lemma elem_of_lstrip a s : a ∈ PyFloat.lstrip s → a ∈ s.
Proof.
  induction s as [|b s IH]; [done|]. simpl.
  destruct (Char.is_space b); [|done]. intros H. right. by apply IH.
Qed.

Lemma elem_of_strip a s : a ∈ PyFloat.strip s → a ∈ s.
Proof.
  unfold PyFloat.strip. intros H.
  apply list_elem_of_In, in_rev, list_elem_of_In in H.
  apply elem_of_lstrip in H.
  apply list_elem_of_In, in_rev, list_elem_of_In in H.
  by apply elem_of_lstrip.
Qed.

Lemma elem_of_collapse a b s :
  a ∈ Clean.collapse b s → a = " "%char ∨ Char.is_space a = false.
Proof.
  revert b. induction s as [|c s IH]; intros b; simpl.
  - intros H. by apply elem_of_nil in H.
  - destruct (Char.is_space c) eqn:E.
    + destruct b; [apply IH|].
      intros [->|H]%elem_of_cons; [by left|]. by eapply IH.
    + intros [->|H]%elem_of_cons; [by right|]. by eapply IH.
Qed.

(** Every character of a cleaned text is a word character, the plain
    space, or one of [-.$()/]: no other punctuation and no other
    whitespace (tab, newline, no-break space) is left. *)
Theorem clean_text_characters txt a :
  a ∈ chars (clean_text txt) →
  Clean.is_word a = true ∨ a = " "%char
  ∨ a ∈ ["-"; "."; "$"; "("; ")"; "/"]%char.
Proof.
  unfold clean_text. destruct (String.eqb txt "").
  - intros H. by apply elem_of_nil in H.
  - rewrite chars_text. intros H.
    apply list_elem_of_In, filter_In in H as [H Hkept].
    apply list_elem_of_In, elem_of_strip, elem_of_collapse in H.
    unfold Clean.kept in Hkept.
    apply orb_true_iff in Hkept as [Hkept|Hp].
    + apply orb_true_iff in Hkept as [Hw|Hs]; [by left|].
      destruct H as [->|Hn]; [right; by left|congruence].
    + right. right. by apply bool_decide_eq_true in Hp.
Qed.

Lemma clean_text_characters_witness :
  Clean.is_word "b"%char = true ∨ "b"%char = " "%char
  ∨ "b"%char ∈ ["-"; "."; "$"; "("; ")"; "/"]%char.
Proof.
  apply (clean_text_characters "a,  b!").
  apply (bool_decide_unpack (_ ∈ _)). vm_compute. reflexivity.
Defined.

(** Cleaning once is not always enough: dropping a character between two
    spaces leaves two spaces in a row. *)
Example clean_text_leaves_double_space :
  clean_text "a ! b" = "a  b" ∧ clean_text (clean_text "a ! b") = "a b".
Proof. split; vm_compute; reflexivity. Qed.

(** ** [combine_datasets]: what is written and what is kept *)

Section CombineFrame.
Variable now : nat -> string.

(** From [st] to [st'] every object has kept all its entries but the
    supplier and the time. *)
Definition same_but_stamp (st st' : store) : Prop :=
  ∀ l r, objects st !! l = Some r →
    ∃ r', objects st' !! l = Some r'
          ∧ ∀ k, k ≠ "supplier" → k ≠ "scraped_at" → r' !! k = r !! k.

Lemma same_but_stamp_refl st : same_but_stamp st st.
Proof. intros l r H. by exists r. Qed.

Lemma same_but_stamp_trans st1 st2 st3 :
  same_but_stamp st1 st2 → same_but_stamp st2 st3 → same_but_stamp st1 st3.
Proof.
  intros H12 H23 l r Hr. destruct (H12 l r Hr) as (r2 & Hr2 & K2).
  destruct (H23 l r2 Hr2) as (r3 & Hr3 & K3). exists r3. split; [done|].
  intros k H1 H2. by rewrite K3, K2.
Qed.

Lemma same_but_stamp_stamp name item st :
  same_but_stamp st (stamp now name item st).
Proof.
  intros l r Hr. destruct (decide (item = l)) as [->|Hne].
  - exists (stamped now name (clock st) r).
    rewrite stamp_lookup_eq, Hr. split; [done|]. intros k H1 H2.
    unfold stamped. by rewrite !lookup_insert_ne.
  - exists r. by rewrite stamp_lookup_ne.
Qed.

Lemma combine_dataset_frame name dataset combined st :
  let res := combine_dataset now name dataset combined st in
  same_but_stamp st res.2 ∧ clock res.2 = (clock st + length dataset)%nat.
Proof.
  revert combined st. induction dataset as [|item rest IH]; intros combined st.
  - simpl. split; [apply same_but_stamp_refl|lia].
  - simpl. destruct (IH (combined ++ [item]) (stamp now name item st)) as [F C].
    split.
    + eapply same_but_stamp_trans; [apply same_but_stamp_stamp|exact F].
    + rewrite C. simpl. lia.
Qed.

Lemma combine_from_frame i datasets names combined st :
  let res := combine_from now i datasets names combined st in
  same_but_stamp st res.2
  ∧ clock res.2 = (clock st + length (mjoin datasets))%nat.
Proof.
  revert i combined st. induction datasets as [|dataset rest IH];
    intros i combined st.
  - simpl. split; [apply same_but_stamp_refl|lia].
  - simpl.
    pose proof (combine_dataset_frame (name_for names i) dataset combined st)
      as [F1 C1].
    destruct (combine_dataset now (name_for names i) dataset combined st)
      as [combined1 st1]. simpl in *.
    destruct (IH (S i) combined1 st1) as [F C]. split.
    + by eapply same_but_stamp_trans.
    + rewrite C, C1, length_app. lia.
Qed.

End CombineFrame.

(** [combine_datasets] writes the supplier and the time and nothing else:
    every other entry of every record is as before (also for a record that
    is in several datasets), and the clock was read once for each record
    of the output. *)
Theorem combine_datasets_frame (now : nat -> string)
    (datasets : list (list ref)) (supplier_names : list string) (st : store) :
  let res := combine_datasets now datasets supplier_names st in
  (∀ l r, objects st !! l = Some r →
     ∃ r', objects res.2 !! l = Some r'
           ∧ ∀ k, k ≠ "supplier" → k ≠ "scraped_at" → r' !! k = r !! k)
  ∧ clock res.2 = (clock st + length res.1)%nat.
Proof.
  simpl. unfold combine_datasets.
  destruct (combine_from_frame now 0 datasets supplier_names [] st) as [F C].
  destruct (combine_from_spec now 0 datasets supplier_names [] st) as (E & _).
  split; [exact F|]. by rewrite C, E.
Qed.

(** ** The summary report: the mean, and records without a price *)









(** An empty list, or a list in which no record has a price key, gives a
    report without a price analysis. *)
Theorem create_summary_report_no_prices (data : list record) :
  Forall (fun r => r !! "price" = None) data →
  create_summary_report data
  = Some {| total_products := length data; price_stats := None |}.
Proof.
  intros H. unfold create_summary_report.
  assert (has_price_column data = false) as ->; [|done].
  unfold has_price_column. induction H as [|r data Hr _ IH]; [done|].
  simpl. by rewrite Hr, IH.
Qed.

Lemma create_summary_report_no_prices_witness :
  create_summary_report [∅; {[ "width" := VInt 3 ]}]
  = Some {| total_products := 2; price_stats := None |}.
Proof.
  apply (create_summary_report_no_prices [∅; {[ "width" := VInt 3 ]}]).
  by repeat constructor.
Defined.

(** ** [combine_datasets]: the time of each record *)

Section CombineTime.
Variable now : nat -> string.

Definition time_entry (st : store) (l : ref) (t : nat) : Prop :=
  ∃ r, objects st !! l = Some r ∧ r !! "scraped_at" = Some (VStr (now t)).

Lemma combine_dataset_times name dataset combined st :
  NoDup dataset → (∀ l, l ∈ dataset → allocated st l) →
  ∀ i l, dataset !! i = Some l →
    time_entry (combine_dataset now name dataset combined st).2 l (clock st + i).
Proof.
  revert combined st. induction dataset as [|item rest IH];
    intros combined st Hnd Hal i l Hi; [done|].
  apply NoDup_cons in Hnd as [Hnotin Hnd]. simpl.
  destruct (combine_dataset_spec now name rest (combined ++ [item])
              (stamp now name item st)) as (_ & _ & F & _).
  destruct i as [|i]; simpl in Hi.
  - injection Hi as ->. unfold time_entry. rewrite F by done.
    destruct (Hal l) as [r0 Hr0]; [by left|].
    exists (stamped now name (clock st) r0). split.
    + by rewrite stamp_lookup_eq, Hr0.
    + rewrite Nat.add_0_r. unfold stamped. by rewrite lookup_insert_eq.
  - replace (clock st + S i)%nat with (clock (stamp now name item st) + i)%nat
      by (simpl; lia).
    apply IH; [done| |done].
    intros l' Hl'. apply stamp_allocated. apply Hal. by right.
Qed.

Lemma time_entry_kept st st' l t :
  objects st' !! l = objects st !! l → time_entry st l t → time_entry st' l t.
Proof. intros E (r & Hr & Ht). exists r. by rewrite E. Qed.

Lemma combine_from_times i datasets names combined st :
  NoDup (mjoin datasets) → (∀ l, l ∈ mjoin datasets → allocated st l) →
  ∀ j l, mjoin datasets !! j = Some l →
    time_entry (combine_from now i datasets names combined st).2 l (clock st + j).
Proof.
  revert i combined st. induction datasets as [|dataset rest IH];
    intros i combined st Hnd Hal j l Hj; [done|].
  simpl in Hnd, Hj. apply NoDup_app in Hnd as (Hnd1 & Hdisj & Hnd2). simpl.
  pose proof (combine_dataset_times (name_for names i) dataset combined st Hnd1)
    as Ht.
  pose proof (combine_dataset_spec now (name_for names i) dataset combined st)
    as (_ & A1 & _ & _).
  pose proof (combine_dataset_frame now (name_for names i) dataset combined st)
    as [_ C1].
  destruct (combine_dataset now (name_for names i) dataset combined st)
    as [combined1 st1]. simpl in *.
  destruct (combine_from_spec now (S i) rest names combined1 st1)
    as (_ & _ & F & _).
  destruct (decide (j < length dataset)%nat) as [Hlt|Hge].
  - rewrite lookup_app_l in Hj by done.
    eapply time_entry_kept.
    + apply F. apply Hdisj. by eapply list_elem_of_lookup_2.
    + apply Ht; [|done]. intros l' Hl'. apply Hal, elem_of_app. by left.
  - rewrite lookup_app_r in Hj by lia.
    replace (clock st + j)%nat with (clock st1 + (j - length dataset))%nat
      by (rewrite C1; lia).
    apply IH; [done| |done].
    intros l' Hl'. apply A1, Hal, elem_of_app. by right.
Qed.

End CombineTime.

(** Each record gets the time of its own turn: when no record object
    occurs twice in the input, the record at position [j] of the output is
    stamped with the [j]-th reading of the clock made by the call, so the
    stamps are those of combining, one per record, not of scraping. *)
Theorem combine_datasets_times (now : nat -> string)
    (datasets : list (list ref)) (supplier_names : list string) (st : store) :
  NoDup (mjoin datasets) →
  (∀ l, l ∈ mjoin datasets → is_Some (objects st !! l)) →
  let res := combine_datasets now datasets supplier_names st in
  ∀ j l, res.1 !! j = Some l →
    ∃ r, objects res.2 !! l = Some r
         ∧ r !! "scraped_at" = Some (VStr (now (clock st + j))).
Proof.
  intros Hnd Hal. simpl. unfold combine_datasets. intros j l Hj.
  destruct (combine_from_spec now 0 datasets supplier_names [] st) as (E & _).
  simpl in E. rewrite E in Hj.
  by apply (combine_from_times now 0 datasets supplier_names [] st Hnd Hal j l).
Qed.

Lemma combine_datasets_times_witness :
  let res := combine_datasets (fun n => pretty n) [[0%nat]; [1%nat]] [] two_objects in
  ∃ r, objects res.2 !! 1%nat = Some r
       ∧ r !! "scraped_at" = Some (VStr (pretty (clock two_objects + 1)%nat)).
Proof.
  apply (combine_datasets_times (fun n => pretty n) [[0%nat]; [1%nat]] []
           two_objects).
  - apply (bool_decide_unpack (NoDup _)). vm_compute. reflexivity.
  - intros l Hl. simpl in Hl.
    apply elem_of_cons in Hl as [->|Hl]; [allocated_here|].
    apply elem_of_cons in Hl as [->|Hl]; [allocated_here|].
    by apply elem_of_nil in Hl.
  - vm_compute. reflexivity.
Defined.

(** ** [scrape_single_product]: one attempt, and a numeric price *)

(** With a screenshot that does not raise, a call of the decorated
    [scrape_single_product] starts exactly one attempt and never waits for
    a retry, whatever the supplier's operations do: the journal grows by
    the attempt and at most the one jittered pause before extraction. *)
Theorem scrape_single_product_one_attempt {browser : Type}
    (sup : strategy browser) (config : record) (s : scraper browser) :
  screenshot_safe sup →
  let d := delay_between_requests s in
  journal (scrape_single_product sup config s).2 = journal s ++ [Attempt config]
  ∨ journal (scrape_single_product sup config s).2
    = journal s ++ [Attempt config; RandomDelay d (d + 1)].
Proof.
  intros Hsafe. rewrite decorated_is_body by done.
  unfold scrape_single_product_body, try_except, pipeline.
  unfold mbind, comp_bind, note, on_session, get, random_delay, note,
    mret, comp_ret. simpl.
  destruct (configure_product sup config (session s)) as [[[]|e] b1]; simpl.
  - destruct (extract_product_data sup b1) as [[[pd|]|e] b2]; simpl.
    + right. rewrite <- app_assoc.
      destruct (dict_truthy pd); simpl; [|done].
      by destruct (validate_product_data _).
    + right. by rewrite <- app_assoc.
    + right. rewrite <- app_assoc.
      by destruct (Hsafe (error_screenshot_name sup (failed_items s)) b2)
        as [b' ->].
  - by left.
  - left.
    by destruct (Hsafe (error_screenshot_name sup (failed_items s)) b1)
      as [b' ->].
Qed.

Lemma scrape_single_product_one_attempt_witness :
  journal (scrape_single_product (demo_supplier flaky) window_config
             fresh_scraper).2
  = journal fresh_scraper ++ [Attempt window_config]
  ∨ journal (scrape_single_product (demo_supplier flaky) window_config
               fresh_scraper).2
    = journal fresh_scraper
        ++ [Attempt window_config;
            RandomDelay (delay_between_requests fresh_scraper)
              (delay_between_requests fresh_scraper + 1)].
Proof.
  apply (scrape_single_product_one_attempt (demo_supplier flaky) window_config
           fresh_scraper).
  intros name b. by exists b.
Defined.

(** An int, a float or a bool. *)
Definition number_like (v : pyval) : Prop :=
  match v with
  | VInt _ | VFloat _ | VBool _ => True
  | _ => False
  end.

(** The price of every record that [scrape_single_product] returns is a
    number, never a string: a price text read from the page or given by
    the configuration has been parsed. *)
Theorem scrape_single_product_price_is_number {browser : Type}
    (sup : strategy browser) (config : record) (s : scraper browser) r :
  (scrape_single_product sup config s).1 = Ok (Some r) →
  ∃ p, r !! "price" = Some p ∧ number_like p.
Proof.
  intros Hres.
  pose proof (scrape_single_product_merged sup config s) as Hm.
  rewrite Hres in Hm. destruct (Hm r eq_refl) as (pd & Hr & Hvalid).
  apply validate_true in Hvalid as (_ & p & Hp & Hnone & Hco).
  exists p. split; [done|].
  destruct p; try done.
  - rewrite Hr, normalize_lookup_price in Hp.
    destruct (remap _ !! "price") as [[| | | |s'|]|]; try done.
    by destruct (extract_price s').
  - unfold coercible in Hco. simpl in Hco. by destruct Hco.
Qed.

Lemma scrape_single_product_price_is_number_witness :
  ∃ p, window_record !! "price" = Some p ∧ number_like p.
Proof.
  apply (scrape_single_product_price_is_number (demo_supplier steady)
           window_config fresh_scraper window_record).
  vm_compute. reflexivity.
Defined.

(** ** Suppliers 2 and 3: no price element, no record *)

Section PriceElement.
Context {browser element : Type}.
Variable drv : driver browser element.

Lemma store_first_text_price key es product_data b :
  key ≠ "price" →
  match store_first_text drv key es product_data b with
  | (Ok pd, _) => pd !! "price" = product_data !! "price"
  | (Raise _, _) => True
  end.
Proof.
  intros Hk. unfold store_first_text. destruct es as [|e es]; [done|].
  unfold mbind, comp_bind, mret, comp_ret.
  destruct (element_text drv e b) as [[t|x] b']; [|done].
  by rewrite lookup_insert_ne.
Qed.

Lemma store_breakdown_price e product_data b :
  match store_breakdown drv e product_data b with
  | (Ok pd, _) => pd !! "price" = product_data !! "price"
  | (Raise _, _) => True
  end.
Proof.
  unfold store_breakdown. destruct e as [e|]; [|done].
  unfold mbind, comp_bind, mret, comp_ret.
  destruct (element_text drv e b) as [[t|x] b']; [|done].
  destruct (float_option_truthy _); by rewrite !lookup_insert_ne.
Qed.

Lemma finish_unpriced product_data (b : browser) :
  product_data !! "price" = None → finish product_data b = (Ok None, b).
Proof. intros H. unfold finish, no_price. by rewrite H. Qed.

Lemma supplier2_needs_price_element b :
  (∀ e, (wait_for_element drv Supplier2.price_container (Some 10%nat) b).1
        ≠ Ok (Some e)) →
  (supplier2_extract_product_data drv b).1 = None.
Proof.
  intros Hno. unfold supplier2_extract_product_data, guarded.
  unfold mbind at 1 2, comp_bind at 1 2.
  destruct (wait_for_element drv Supplier2.price_container (Some 10%nat) b)
    as [[[e|]|x] b1]; [by destruct (Hno e)| |done].
  cbn [store_price mret comp_ret].
  unfold mbind at 1 2, comp_bind at 1 2, total.
  destruct (get_element_text drv Supplier2.product_summary b1) as [d b2].
  destruct (get_element_text drv Supplier2.feature_list b2) as [f b3].
  unfold mbind at 1, comp_bind at 1.
  destruct (find_elements drv Supplier2.lead_time b3) as [[es|x] b4]; [|done].
  unfold mbind at 1, comp_bind at 1.
  match goal with
  | |- context [store_first_text drv ?k ?es ?p ?b] =>
      pose proof (store_first_text_price k es p b) as Hs;
      destruct (store_first_text drv k es p b) as [[pd'|x] b5]; [|done]
  end.
  rewrite finish_unpriced; [done|]. rewrite Hs by done.
  by rewrite !store_text_price.
Qed.

Lemma supplier3_needs_price_element b :
  (∀ e, (wait_for_element drv Supplier3.total_price (Some 10%nat) b).1
        ≠ Ok (Some e)) →
  (supplier3_extract_product_data drv b).1 = None.
Proof.
  intros Hno. unfold supplier3_extract_product_data, guarded.
  unfold mbind at 1 2, comp_bind at 1 2.
  destruct (wait_for_element drv Supplier3.total_price (Some 10%nat) b)
    as [[[e|]|x] b1]; [by destruct (Hno e)| |done].
  cbn [store_price mret comp_ret].
  unfold mbind at 1, comp_bind at 1.
  destruct (wait_for_element drv Supplier3.price_breakdown None b1)
    as [[be|x] b2]; [|done].
  unfold mbind at 1, comp_bind at 1.
  pose proof (store_breakdown_price be ∅ b2) as Hb.
  destruct (store_breakdown drv be ∅ b2) as [[pd1|x] b3]; [|done].
  unfold mbind at 1 2, comp_bind at 1 2, total.
  destruct (get_element_text drv Supplier3.product_specs b3) as [d b4].
  destruct (get_element_text drv Supplier3.warranty_info b4) as [f b5].
  unfold mbind at 1, comp_bind at 1.
  destruct (find_elements drv Supplier3.installation b5) as [[es|x] b6]; [|done].
  unfold mbind at 1, comp_bind at 1.
  match goal with
  | |- context [store_first_text drv ?k ?es ?p ?b] =>
      pose proof (store_first_text_price k es p b) as Hs;
      destruct (store_first_text drv k es p b) as [[pd'|x] b7]; [|done]
  end.
  rewrite finish_unpriced; [done|]. rewrite Hs by done.
  by rewrite !store_text_price, Hb.
Qed.

End PriceElement.

(** When the wait for the price element of supplier 2 or of supplier 3
    gives no element (it timed out, or it raised), [extract_product_data]
    returns [None], whatever the other regions of the page hold. *)
Theorem no_price_element_no_record {browser element : Type}
    (drv : driver browser element) (b : browser) :
  ((∀ e, (wait_for_element drv Supplier2.price_container (Some 10%nat) b).1
         ≠ Ok (Some e)) →
   (supplier2_extract_product_data drv b).1 = None)
  ∧ ((∀ e, (wait_for_element drv Supplier3.total_price (Some 10%nat) b).1
           ≠ Ok (Some e)) →
     (supplier3_extract_product_data drv b).1 = None).
Proof.
  split; [apply supplier2_needs_price_element|apply supplier3_needs_price_element].
Qed.

Lemma no_price_element_no_record_witness :
  (supplier2_extract_product_data demo_page 0%nat).1 = None
  ∧ (supplier3_extract_product_data demo_page 0%nat).1 = None.
Proof.
  destruct (no_price_element_no_record demo_page 0%nat) as [H2 H3].
  split; [apply H2|apply H3]; intros e; discriminate.
Defined.

(** ** Dimension extraction: both numbers or neither *)











(** ** [main.py]: running the three scrapers and combining their data *)

(** The local lists of [run_all_scrapers] beside the store of record
    objects. *)
Record main_state := {
  heap : store;
  all_data : list (list ref);
  supplier_names : list string;
}.

(** What [run_all_scrapers] uses of a scraper class: the constructor,
    [scrape_all_products], whose result is a list of record objects, and
    [save_data('excel')], which reads them. *)
Record scraper_class := {
  construct : store -> outcome unit;
  scrape_all : comp store (list ref);
  save_excel : list ref -> store -> outcome unit;
}.

Definition on_heap {A} (c : comp store A) : comp main_state A :=
  fun ms =>
    let '(o, h) := c (heap ms) in
    (o, {| heap := h; all_data := all_data ms;
           supplier_names := supplier_names ms |}).

(** An operation that reads the record objects and changes none. *)
Definition read {A} (f : store -> outcome A) : comp main_state A :=
  fun ms => (f (heap ms), ms).

(** [all_data.append(data); supplier_names.append(supplier_name)]. *)
Definition append_run (name : string) (data : list ref) : comp main_state unit :=
  fun ms =>
    (Ok tt, {| heap := heap ms; all_data := all_data ms ++ [data];
               supplier_names := supplier_names ms ++ [name] |}).

(** One reading of the time outside [combine_datasets]. *)
Definition tick : comp store unit :=
  fun st => (Ok tt, {| objects := objects st; clock := S (clock st) |}).

(** One turn of the loop over the scraper classes: the constructor runs
    outside [try]; whatever is raised inside is logged and the loop goes
    on. *)
Definition run_scraper (name : string) (c : scraper_class) : comp main_state unit :=
  read (construct c);;
  try_except
    (data ← on_heap (scrape_all c);
     match data with
     | [] => mret tt
     | _ :: _ => append_run name data;; read (save_excel c data)
     end)
    (fun _ => mret tt).

Fixpoint run_each (scrapers : list (string * scraper_class))
    : comp main_state unit :=
  match scrapers with
  | [] => mret tt
  | (name, c) :: rest => run_scraper name c;; run_each rest
  end.

Definition scraper_names : list string := ["Supplier1"; "Supplier2"; "Supplier3"].

Section Main.
Variable now : nat -> string.
(** [DataHandler()], [save_to_excel] of the combined data, the two
    analyses of it, and [save_to_json] of the report. *)
Variable new_handler : store -> outcome unit.
Variable save_combined : list ref -> store -> outcome unit.
Variable analyse : list ref -> store -> outcome unit.
Variable save_report : list ref -> store -> outcome unit.
Variables supplier1 supplier2 supplier3 : scraper_class.

Definition run_all_scrapers_body : comp main_state (list ref) :=
  run_each (zip scraper_names [supplier1; supplier2; supplier3]);;
  datasets ← get all_data;
  match datasets with
  | [] => mret []
  | _ :: _ =>
      read new_handler;;
      names ← get supplier_names;
      combined_data ← on_heap (total (combine_datasets now datasets names));
      read (save_combined combined_data);;
      read (analyse combined_data);;
      on_heap tick;;
      read (save_report combined_data);;
      mret combined_data
  end.

Definition run_all_scrapers : comp store (list ref) :=
  fun st =>
    let '(o, ms) :=
      run_all_scrapers_body {| heap := st; all_data := []; supplier_names := [] |} in
    (o, heap ms).

End Main.

(** The two lists stay in step, and only names of scrapers that were run
    are recorded. *)
Definition in_step (allowed : list string) (ms : main_state) : Prop :=
  length (all_data ms) = length (supplier_names ms)
  ∧ Forall (fun n => n ∈ allowed) (supplier_names ms).

Lemma run_scraper_in_step (allowed : list string) name c ms o ms' :
  name ∈ allowed → in_step allowed ms →
  run_scraper name c ms = (o, ms') → in_step allowed ms'.
Proof.
  intros Hn [Hl Hf].
  unfold run_scraper, mbind, comp_bind, try_except, read, on_heap, append_run,
    mret, comp_ret.
  destruct (construct c (heap ms)); [|by intros [= <- <-]].
  destruct (scrape_all c (heap ms)) as [[data|e] h]; simpl.
  - destruct data as [|l data]; simpl.
    + by intros [= <- <-].
    + assert (in_step allowed
                {| heap := h; all_data := all_data ms ++ [l :: data];
                   supplier_names := supplier_names ms ++ [name] |}) as Hstep.
      { split; simpl.
        - rewrite !length_app. simpl. lia.
        - apply Forall_app. split; [done|]. by constructor. }
      destruct (save_excel c (l :: data) h); by intros [= <- <-].
  - by intros [= <- <-].
Qed.

Lemma run_each_in_step (allowed : list string) scrapers ms o ms' :
  Forall (fun nc => nc.1 ∈ allowed) scrapers → in_step allowed ms →
  run_each scrapers ms = (o, ms') → in_step allowed ms'.
Proof.
  intros H. revert ms.
  induction H as [|[name c] rest Hn _ IH]; intros ms Hs; simpl.
  - by intros [= <- <-].
  - unfold mbind, comp_bind.
    destruct (run_scraper name c ms) as [[[]|e] ms1] eqn:E.
    + apply IH. by eapply run_scraper_in_step.
    + intros [= <- <-]. by eapply run_scraper_in_step.
Qed.

(** With as many names as datasets, [combine_datasets] marks every
    record with one of the names. *)
Lemma combine_in_step now (allowed : list string) datasets names st l r :
  length datasets = length names → Forall (fun n => n ∈ allowed) names →
  let res := combine_datasets now datasets names st in
  l ∈ res.1 → objects res.2 !! l = Some r →
  ∃ name, name ∈ allowed ∧ r !! "supplier" = Some (VStr name).
Proof.
  intros Hlen Hall. unfold combine_datasets.
  pose proof (combine_from_spec now 0 datasets names [] st) as (E & A & _ & Mk).
  simpl in *. intros Hl Hr. rewrite E in Hl.
  destruct (Mk l Hl) as (j & d & Hj & _ & r' & Hr' & Hs & _).
  { apply A. by exists r. }
  rewrite Hr in Hr'. injection Hr' as <-.
  unfold name_for in Hs.
  destruct (names !! j) as [n|] eqn:En.
  - exists n. split; [|done].
    rewrite Forall_forall in Hall. apply Hall. by eapply list_elem_of_lookup_2.
  - apply lookup_ge_None in En. apply lookup_lt_Some in Hj. lia.
Qed.

Lemma run_all_scrapers_body_names (now : nat -> string)
    (new_handler : store -> outcome unit)
    (save_combined analyse save_report : list ref -> store -> outcome unit)
    (supplier1 supplier2 supplier3 : scraper_class) (st : store)
    (combined_data : list ref) (ms' : main_state) (l : ref) (r : record) :
  run_all_scrapers_body now new_handler save_combined analyse save_report
    supplier1 supplier2 supplier3
    {| heap := st; all_data := []; supplier_names := [] |}
  = (Ok combined_data, ms') →
  l ∈ combined_data → objects (heap ms') !! l = Some r →
  ∃ name, name ∈ scraper_names ∧ r !! "supplier" = Some (VStr name).
Proof.
  unfold run_all_scrapers_body.
  set (start := {| heap := st; all_data := []; supplier_names := [] |}).
  unfold mbind at 1, comp_bind at 1.
  destruct (run_each (zip scraper_names [supplier1; supplier2; supplier3]) start)
    as [[[]|e] ms] eqn:E; [|done].
  assert (in_step scraper_names ms) as [Hlen Hall].
  { eapply run_each_in_step; [| |exact E].
    - repeat constructor; simpl;
        apply (bool_decide_unpack (_ ∈ scraper_names)); vm_compute; reflexivity.
    - by split. }
  unfold mbind, comp_bind, get, read, on_heap, total, tick, mret, comp_ret.
  destruct (all_data ms) as [|d ds] eqn:Ed.
  { intros [= <- <-] Hl. by apply elem_of_nil in Hl. }
  destruct (new_handler (heap ms)); [|done].
  pose proof (combine_in_step now scraper_names (d :: ds) (supplier_names ms)
                (heap ms) l r Hlen Hall) as Hc.
  destruct (combine_datasets now (d :: ds) (supplier_names ms) (heap ms))
    as [combined st1]. simpl in Hc. cbn [heap all_data supplier_names].
  destruct (save_combined combined st1); [|done].
  destruct (analyse combined st1); [|done].
  cbn [heap all_data supplier_names objects].
  destruct (save_report combined _); [|done].
  intros [= <- <-]. exact Hc.
Qed.

(** In the combined data that [run_all_scrapers] returns, the supplier
    entry of every record is one of [Supplier1], [Supplier2], [Supplier3]:
    datasets and names are appended together, so the generated name
    [Supplier_<i+1>] of [combine_datasets] is never used, also when a
    scraper raised, brought no data or could not save its file. *)
Theorem run_all_scrapers_supplier_names (now : nat -> string)
    (new_handler : store -> outcome unit)
    (save_combined analyse save_report : list ref -> store -> outcome unit)
    (supplier1 supplier2 supplier3 : scraper_class) (st : store)
    (combined_data : list ref) (l : ref) (r : record) :
  let res := run_all_scrapers now new_handler save_combined analyse save_report
               supplier1 supplier2 supplier3 st in
  res.1 = Ok combined_data → l ∈ combined_data →
  objects res.2 !! l = Some r →
  ∃ name, name ∈ scraper_names ∧ r !! "supplier" = Some (VStr name).
Proof.
  unfold run_all_scrapers.
  destruct (run_all_scrapers_body now new_handler save_combined analyse
              save_report supplier1 supplier2 supplier3
              {| heap := st; all_data := []; supplier_names := [] |})
    as [o ms'] eqn:E.
  simpl. intros ->. by eapply run_all_scrapers_body_names.
Qed.

(** A scraper that brings the record object [l]; its file cannot be
    saved. *)
Definition brings (l : ref) : scraper_class :=
  {| construct := fun _ => Ok tt;
     scrape_all := fun st => (Ok [l], st);
     save_excel := fun _ _ => Raise (Exception "PermissionError") |}.

(** A scraper whose run raises. *)
Definition crashes : scraper_class :=
  {| construct := fun _ => Ok tt;
     scrape_all := fun st => (Raise (Exception "WebDriverException"), st);
     save_excel := fun _ _ => Ok tt |}.

Definition quiet : list ref -> store -> outcome unit := fun _ _ => Ok tt.

Lemma run_all_scrapers_supplier_names_witness :
  ∃ name, name ∈ scraper_names
          ∧ stamped midnight "Supplier3" 1 {[ "price" := VInt 5 ]} !! "supplier"
            = Some (VStr name).
Proof.
  apply (run_all_scrapers_supplier_names midnight (fun _ => Ok tt) quiet quiet
           quiet (brings 0) crashes (brings 1) two_objects [0; 1]%nat 1%nat).
  - vm_compute. reflexivity.
  - apply (bool_decide_unpack (1%nat ∈ [0; 1]%nat)). vm_compute. reflexivity.
  - vm_compute. reflexivity.
Defined.
